(** * crocoite: the IRC bot "chromebot" (crocoite/irc.py)

    A shallow embedding of the chat front end and the job orchestrator of
    [crocoite/irc.py] and the properties of its specification.

    Conventions of the embedding.
    - Python values that reach the code from [json.loads] are the
      inductive [pyobj]; a [dict] is a [gmap], a [set] a [gset].
    - A Python exception is a constructor of [exn]; code that can raise
      returns a [result].
    - [float] is IEEE 754 binary64 as specified by the Standard Library's
      [SpecFloat] ([prec = 53], [emax = 1024]).
    - The coroutines of the bot run on one asyncio event loop: between two
      [await]s a handler runs without interruption.  A coroutine is
      therefore a program counter ([pc]) plus the atomic block that runs
      from one [await] to the next; the event loop is the function [step]
      which runs one such block.
    - Mutable objects that are shared between several owners (the [set]
      holding the modes of a [User]) live in an explicit store and are
      referred to by location. *)

From Stdlib Require Import ZArith Ascii String DecimalString SpecFloat.
From stdpp Require Import gmap strings list fin_maps.

Set Warnings "-register-all".

Open Scope Z_scope.

(** ** Python values, exceptions *)

(** The exceptions the modelled code can raise. *)
Inductive exn :=
| KeyError
| IndexError
| TypeError
| AttributeError
| AssertionError
| OverflowError
| ZeroDivisionError
| JSONDecodeError
| ValueError
| OSError.

#[global] Instance exn_eq_dec : EqDecision exn.
Proof. solve_decision. Defined.

Inductive result (A : Type) :=
| Ok (a : A)
| Raise (e : exn).
Arguments Ok {A} a.
Arguments Raise {A} e.

#[global] Instance result_ret : MRet result := fun A a => Ok a.
#[global] Instance result_bind : MBind result := fun A B f m =>
  match m with
  | Ok a => f a
  | Raise e => Raise e
  end.

(** The values [json.loads] produces (and [float], which arithmetic
    produces from them). *)
Inductive pyobj :=
| PNone
| PBool (b : bool)
| PInt (z : Z)
| PFloat (f : spec_float)
| PStr (s : string)
| PList (items : list pyobj)
| PDict (fields : gmap string pyobj).

(** [d.get (key, default)] and [d.get (key)] *)
Definition dict_get (d : gmap string pyobj) (key : string) (default : pyobj) : pyobj :=
  match d !! key with
  | Some v => v
  | None => default
  end.

(** [v == s] for a [str] [s] *)
Definition eq_str (v : pyobj) (s : string) : bool :=
  match v with
  | PStr s' => bool_decide (s' = s)
  | _ => false
  end.

(** ** Numbers: [int] and binary64 [float] *)

Abbreviation b64_div := (SFdiv 53 1024).
Abbreviation b64_leb := (SFleb).

(** An integer as an unrounded operand (mantissa [z], exponent 0). *)
Definition exact_int (z : Z) : spec_float :=
  match z with
  | Z0 => S754_zero false
  | Zpos p => S754_finite false p 0
  | Zneg p => S754_finite true p 0
  end.

Definition finite_or_overflow (f : spec_float) : result spec_float :=
  match f with
  | S754_infinity _ => Raise OverflowError
  | _ => Ok f
  end.

(** [float (z)]: the nearest binary64, ties to even; [OverflowError] when
    [z] is too large. *)
Definition float_of_int (z : Z) : result spec_float :=
  finite_or_overflow (binary_normalize 53 1024 z 0 false).

(** [a / b] on two [int]s: the correctly rounded quotient;
    [OverflowError] when it is too large for a float. *)
Definition int_truediv (a b : Z) : result spec_float :=
  if b =? 0 then Raise ZeroDivisionError
  else finite_or_overflow (b64_div (exact_int a) (exact_int b)).

(** [x / b] on a [float] and an [int]: the divisor is converted first. *)
Definition float_truediv (x : spec_float) (b : Z) : result spec_float :=
  if b =? 0 then Raise ZeroDivisionError
  else d ← float_of_int b; Ok (b64_div x d).

(** [x / b] for an [int] divisor [b]. *)
Definition truediv (x : pyobj) (b : Z) : result pyobj :=
  match x with
  | PInt a => f ← int_truediv a b; Ok (PFloat f)
  | PBool a => f ← int_truediv (if a then 1 else 0) b; Ok (PFloat f)
  | PFloat f => g ← float_truediv f b; Ok (PFloat g)
  | _ => Raise TypeError
  end.

(** [x >= b] for an [int] [b] that a binary64 holds exactly (1024 here). *)
Definition ge_int (x : pyobj) (b : Z) : result bool :=
  match x with
  | PInt a => Ok (b <=? a)
  | PBool a => Ok (b <=? (if a then 1 else 0))
  | PFloat f => Ok (b64_leb (binary_normalize 53 1024 b 0 false) f)
  | _ => Raise TypeError
  end.

(** *** ['{:.1f}'.format (x)] *)

Definition decimal (n : Z) : string := NilZero.string_of_uint (N.to_uint (Z.to_N n)).

(** Nearest integer to [n / d], ties to even ([0 <= n], [0 < d]). *)
Definition round_half_even (n d : Z) : Z :=
  let q := n / d in
  match 2 * (n mod d) ?= d with
  | Lt => q
  | Gt => q + 1
  | Eq => if Z.even q then q else q + 1
  end.

(** The number of tenths nearest to [m * 2^e]. *)
Definition tenths (m : positive) (e : Z) : Z :=
  if 0 <=? e then 10 * Zpos m * 2 ^ e
  else round_half_even (10 * Zpos m) (2 ^ (- e)).

Definition fixed1 (negative : bool) (t : Z) : string :=
  (if negative then "-" else "") +:+ decimal (t / 10) +:+ "." +:+ decimal (t mod 10).

Definition format_1f_float (f : spec_float) : string :=
  match f with
  | S754_zero s => fixed1 s 0
  | S754_finite s m e => fixed1 s (tenths m e)
  | S754_infinity s => if s then "-inf" else "inf"
  | S754_nan => "nan"
  end.

Definition format_1f (x : pyobj) : result string :=
  match x with
  | PInt z => f ← float_of_int z; Ok (format_1f_float f)
  | PBool b => f ← float_of_int (if b then 1 else 0); Ok (format_1f_float f)
  | PFloat f => Ok (format_1f_float f)
  | _ => Raise TypeError
  end.

(** ** [prettyBytes] *)

Definition prefixes0 : list string := ["B"; "KiB"; "MiB"; "GiB"; "TiB"].

(** The [while] loop of [prettyBytes]: one iteration divides [b] and pops
    the head of [prefixes]; the list shrinks, so the loop is structural. *)
Fixpoint prettyBytes_loop (b : pyobj) (prefixes : list string)
  : result (pyobj * list string) :=
  big ← ge_int b 1024;
  if big && (1 <? Z.of_nat (length prefixes)) then
    match prefixes with
    | _ :: rest => b' ← truediv b 1024; prettyBytes_loop b' rest
    | [] => Ok (b, prefixes)
    end
  else Ok (b, prefixes).

Definition prettyBytes (b : pyobj) : result string :=
  '(b', prefixes) ← prettyBytes_loop b prefixes0;
  s ← format_1f b';
  match prefixes with
  | unit :: _ => Ok (s +:+ " " +:+ unit)
  | [] => Raise IndexError
  end.

(** ** [isValidUrl] *)

(** [urlsplit]: the scheme before the first ["://"] and the network
    location up to the next ['/'], ['?'] or ['#'].  The library function
    does more (it lower-cases the scheme, checks its characters, knows
    IPv6 brackets); this is the part [isValidUrl] looks at. *)
Fixpoint split_scheme (s : string) : option (string * string) :=
  match s with
  | String ":"%char (String "/"%char (String "/"%char rest)) => Some ("", rest)
  | String c s' =>
      match split_scheme s' with
      | Some (scheme, rest) => Some (String c scheme, rest)
      | None => None
      end
  | EmptyString => None
  end.

Fixpoint netloc_of (s : string) : string :=
  match s with
  | String c s' =>
      if decide (c = "/" ∨ c = "?" ∨ c = "#")%char then "" else String c (netloc_of s')
  | EmptyString => ""
  end.

Definition urlsplit (s : string) : string * string :=
  match split_scheme s with
  | Some (scheme, rest) => (scheme, netloc_of rest)
  | None => ("", "")
  end.

Definition isValidUrl (s : string) : result string :=
  let '(scheme, netloc) := urlsplit s in
  if bool_decide (scheme ≠ "") && bool_decide (netloc ≠ "")
     && bool_decide (scheme = "http" ∨ scheme = "https")
  then Ok s else Raise TypeError.

(** ** [Status], [Job] *)

Module Status.
Inductive t := undefined | pending | running | aborted | finished.

#[global] Instance eq_dec : EqDecision t.
Proof. solve_decision. Defined.

Definition name (s : t) : string :=
  match s with
  | undefined => "undefined"
  | pending => "pending"
  | running => "running"
  | aborted => "aborted"
  | finished => "finished"
  end.
End Status.

(** [asyncio.subprocess.Process] as far as the bot looks at it:
    [returncode] is [None] while the process lives; [terminated] records
    that [terminate ()] was called. *)
Module Process.
Record t := Build { returncode : option Z; terminated : bool }.

Definition spawn : t := Build None false.
Definition exit (code : Z) (p : t) : t := Build (Some code) (terminated p).
Definition terminate (p : t) : t := Build (returncode p) true.
End Process.

Module Job.
Record t := Build {
  id : string;
  stats : gmap string pyobj;
  rstats : gmap string pyobj;
  started : Z;
  finished : option Z;
  url : string;
  nick : string;
  status : Status.t;
  process : option Process.t
}.

(** [Job.__init__]; the [uuid4] and the clock are supplied by the caller. *)
Definition init (uuid : string) (now : Z) (url nick : string) : t :=
  Build uuid ∅ ∅ now None url nick Status.pending None.

Definition set_stats (v : gmap string pyobj) (j : t) : t :=
  Build (id j) v (rstats j) (started j) (finished j) (url j) (nick j) (status j) (process j).
Definition set_rstats (v : gmap string pyobj) (j : t) : t :=
  Build (id j) (stats j) v (started j) (finished j) (url j) (nick j) (status j) (process j).
Definition set_finished (v : option Z) (j : t) : t :=
  Build (id j) (stats j) (rstats j) (started j) v (url j) (nick j) (status j) (process j).
Definition set_status (v : Status.t) (j : t) : t :=
  Build (id j) (stats j) (rstats j) (started j) (finished j) (url j) (nick j) v (process j).
Definition set_process (v : option Process.t) (j : t) : t :=
  Build (id j) (stats j) (rstats j) (started j) (finished j) (url j) (nick j) (status j) v.

(** The process exists and has not exited. *)
Definition live (j : t) : bool :=
  match process j with
  | Some p => bool_decide (Process.returncode p = None)
  | None => false
  end.
End Job.

(** ** Chat replies

    A reply is the format string the code uses together with the values
    it is applied to; [str.format] itself is Python's. *)
Inductive message :=
| Queued (url id recursive : string) (concurrency : Z)
    (** ['{} has been queued as {} with {}'], the options as
        ['recursive={}, concurrency={}'] *)
| StatusLine (url id status : string)
    (have pending crashed requests failed : pyobj) (received : string)
    (** ['{} ({}) {}. {} pages finished, {} pending; {} crashed, {} requests, {} failed, {} received.'] *)
| MustHaveVoice
    (** ['Sorry, you must have voice to use this command.'] *)
| JobUnknown (id : string)
    (** ['Job {} is unknown'] *)
| NotRunning
    (** ['This job is not running.'] *)
| ParseFailure (error usage : string)
    (** ['{} -- {}'] *)
| NotUnderstood (command : list string)
    (** ['Sorry, I don’t understand {}'] *).

(** [Job.formatStatus] *)
Definition formatStatus (j : Job.t) : result message :=
  let stats := Job.stats j in
  let rstats := Job.rstats j in
  received ← prettyBytes (dict_get stats "bytesRcv" (PInt 0));
  Ok (StatusLine (Job.url j) (Job.id j) (Status.name (Job.status j))
        (dict_get rstats "have" (PInt 0))
        (dict_get rstats "pending" (PInt 0))
        (dict_get stats "crashed" (PInt 0))
        (dict_get stats "requests" (PInt 0))
        (dict_get stats "failed" (PInt 0))
        received).

(** ** [NickMode], [User] *)

Module NickMode.
Inductive t := operator | voice.

#[global] Instance eq_dec : EqDecision t.
Proof. solve_decision. Defined.

#[global] Instance countable : Countable t.
Proof.
  refine (inj_countable' (λ m, match m with operator => true | voice => false end)
            (λ b : bool, if b then operator else voice) _).
  by intros [].
Defined.

(** [NickMode (c)]: lookup by value; [None] stands for [ValueError]. *)
Definition of_value (c : ascii) : option t :=
  if decide (c = "@"%char) then Some operator
  else if decide (c = "+"%char) then Some voice
  else None.

(** [NickMode.fromMode]: a [dict] lookup, [KeyError] on other letters. *)
Definition fromMode (mode : ascii) : result t :=
  if decide (mode = "v"%char) then Ok voice
  else if decide (mode = "o"%char) then Ok operator
  else Raise KeyError.
End NickMode.

(** A [set] object is referred to by its location in the store of sets. *)
Abbreviation loc := nat.

Module User.
(** [modes] is a reference: two users built with the default argument
    hold the same [set] object. *)
Record t := Build { name : string; modes : loc }.
End User.

(** ** The bot *)

(** [argparse.Namespace] as [getParser] can produce it: the attributes
    are those of the chosen sub-parser, [func] being the handler set by
    [set_defaults]; without a sub-command the namespace has no attribute. *)
Inductive Namespace :=
| NsEmpty
| NsArchive (url recursive : string) (concurrency : Z)  (** [func = handleArchive] *)
| NsStatus (id : string)                                (** [func = handleStatus] *)
| NsAbort (id : string)                                 (** [func = handleAbort] *).

(** [parse_args] returns a namespace or, through
    [NonExitingArgumentParser.error], raises [Exception (self, message)];
    [usage] is [self.format_usage ()] of the parser that raised. *)
Inductive parsed :=
| Parsed (args : Namespace)
| ParserError (error usage : string).

(** [ReplyContext] *)
Record ReplyContext := { target : string; user : User.t }.

(** Where a [handleArchive] coroutine is suspended. *)
Inductive pc :=
| AtGate           (** [async with self.processLimit]: not yet acquired *)
| Spawning         (** [await asyncio.create_subprocess_exec (...)] *)
| Reading          (** [await j.process.stdout.readline ()] *)
| Waiting          (** [await j.process.wait ()] *)
| Returned         (** the handler returned *)
| Failed (e : exn) (** the handler was left by an exception *).

#[global] Instance pc_eq_dec : EqDecision pc.
Proof. solve_decision. Defined.

(** The frame of a [handleArchive] coroutine: its local [reply] and the
    point it is suspended at; its local [j] is the job registered under
    the key of the frame. *)
Record Task := { at_pc : pc; reply : ReplyContext }.

(** A sent [PRIVMSG]: target, addressee, text. *)
Record privmsg := { msg_target : string; msg_to : string; msg_text : message }.

Record Chromebot := {
  nick : string;
  channels : list string;
  users : gmap string (gmap string User.t);  (** channel -> nick -> user *)
  sets : list (gset NickMode.t);             (** the [set] objects, by location *)
  parser : list string → parsed;             (** [self.parser.parse_args] *)
  jobs : gmap string Job.t;
  tasks : gmap string Task;                  (** the running [handleArchive]s, by job id *)
  processLimit : nat;                        (** value of the semaphore *)
  sent : list privmsg
}.

Definition with_users (v : gmap string (gmap string User.t)) (b : Chromebot) : Chromebot :=
  {| nick := nick b; channels := channels b; users := v; sets := sets b;
     parser := parser b; jobs := jobs b; tasks := tasks b;
     processLimit := processLimit b; sent := sent b |}.
Definition with_sets (v : list (gset NickMode.t)) (b : Chromebot) : Chromebot :=
  {| nick := nick b; channels := channels b; users := users b; sets := v;
     parser := parser b; jobs := jobs b; tasks := tasks b;
     processLimit := processLimit b; sent := sent b |}.
Definition with_jobs (v : gmap string Job.t) (b : Chromebot) : Chromebot :=
  {| nick := nick b; channels := channels b; users := users b; sets := sets b;
     parser := parser b; jobs := v; tasks := tasks b;
     processLimit := processLimit b; sent := sent b |}.
Definition with_tasks (v : gmap string Task) (b : Chromebot) : Chromebot :=
  {| nick := nick b; channels := channels b; users := users b; sets := sets b;
     parser := parser b; jobs := jobs b; tasks := v;
     processLimit := processLimit b; sent := sent b |}.
Definition with_processLimit (v : nat) (b : Chromebot) : Chromebot :=
  {| nick := nick b; channels := channels b; users := users b; sets := sets b;
     parser := parser b; jobs := jobs b; tasks := tasks b;
     processLimit := v; sent := sent b |}.
Definition with_sent (v : list privmsg) (b : Chromebot) : Chromebot :=
  {| nick := nick b; channels := channels b; users := users b; sets := sets b;
     parser := parser b; jobs := jobs b; tasks := tasks b;
     processLimit := processLimit b; sent := v |}.

(** The location of the [set ()] that is the default argument [modes] of
    [User.__init__]: Python evaluates it once, when the function is
    defined, so every [User (name)] holds this one object. *)
Definition default_modes : loc := 0%nat.

(** [User (name)] *)
Definition User_init (name : string) : User.t := User.Build name default_modes.

(** The content of the [set] a user's [modes] refers to. *)
Definition modes_of (self : Chromebot) (u : User.t) : gset NickMode.t :=
  default ∅ (sets self !! User.modes u).

(** [ReplyContext.__call__] *)
Definition send (ctx : ReplyContext) (text : message) (self : Chromebot) : Chromebot :=
  with_sent (sent self ++ [{| msg_target := target ctx;
                              msg_to := User.name (user ctx);
                              msg_text := text |}]) self.

(** *** Channel membership *)

(** [self.users[channel]] on the [defaultdict (dict)]: a missing channel
    is entered with an empty [dict]. *)
Definition users_at (channel : string) (self : Chromebot) : Chromebot * gmap string User.t :=
  match users self !! channel with
  | Some m => (self, m)
  | None => (with_users (<[channel := ∅]> (users self)) self, ∅)
  end.

(** [User.fromName]: a fresh [set] is built in either branch. *)
Definition fromName (name : string) (store : list (gset NickMode.t))
  : result (User.t * list (gset NickMode.t)) :=
  match name with
  | EmptyString => Raise IndexError
  | String c rest =>
      match NickMode.of_value c with
      | Some m => Ok (User.Build rest (length store), store ++ [{[ m ]}])
      | None => Ok (User.Build name (length store), store ++ [∅])
      end
  end.

Fixpoint fromNames (names : list string) (acc : gmap string User.t)
    (store : list (gset NickMode.t))
  : result (gmap string User.t * list (gset NickMode.t)) :=
  match names with
  | [] => Ok (acc, store)
  | n :: rest =>
      '(u, store') ← fromName n store;
      fromNames rest (<[User.name u := u]> acc) store'
  end.

Record outcome := Outcome { after : Chromebot; raised : option exn }.

Definition onNameReply (channel : string) (names : list string) (self : Chromebot) : outcome :=
  match fromNames names ∅ (sets self) with
  | Ok (m, store) =>
      Outcome (with_users (<[channel := m]> (users self)) (with_sets store self)) None
  | Raise e => Outcome self (Some e)
  end.

(** [parseMode] *)
Fixpoint parseMode_from (action : ascii) (mode : string) : list (ascii * ascii) :=
  match mode with
  | EmptyString => []
  | String c rest =>
      if decide (c = "+" ∨ c = "-")%char then parseMode_from c rest
      else (action, c) :: parseMode_from action rest
  end.

Definition parseMode (mode : string) : list (ascii * ascii) := parseMode_from "+"%char mode.

(** One iteration of the loop of [onMode], with its [try]. *)
Definition onMode_apply (channel : string) (self : Chromebot)
    (item : (ascii * ascii) * string) : Chromebot :=
  let '((action, mode), nick) := item in
  match NickMode.fromMode mode with
  | Raise _ => self
  | Ok m =>
      let '(self, members) := users_at channel self in
      let u := default (User_init nick) (members !! nick) in
      let l := User.modes u in
      let current := modes_of self u in
      if decide (action = "+"%char) then
        with_sets (<[l := current ∪ {[ m ]}]> (sets self)) self
      else if decide (action = "-"%char) then
        if decide (m ∈ current) then with_sets (<[l := current ∖ {[ m ]}]> (sets self)) self
        else self
      else self
  end.

Definition onMode (channel modes : string) (params : list string) (self : Chromebot) : Chromebot :=
  if decide (channel ∈ channels self) then
    foldl (onMode_apply channel) self (zip (parseMode modes) params)
  else self.

Definition onPart (nick channel : string) (self : Chromebot) : Chromebot :=
  if decide (channel ∈ channels self) then
    let '(self, members) := users_at channel self in
    with_users (<[channel := delete nick members]> (users self)) self
  else self.

Definition onJoin (nick channel : string) (self : Chromebot) : Chromebot :=
  if decide (channel ∈ channels self) then
    let '(self, members) := users_at channel self in
    with_users (<[channel := <[nick := User_init nick]> members]> (users self)) self
  else self.

(** *** Commands *)

(** [message.split (' ')] *)
Fixpoint split_space (s : string) : list string :=
  match s with
  | EmptyString => [""]
  | String c rest =>
      if decide (c = " "%char) then "" :: split_space rest
      else match split_space rest with
           | w :: ws => String c w :: ws
           | [] => [String c ""]
           end
  end.

(** The truth value of an [argparse.Namespace]: the class defines neither
    [__bool__] nor [__len__], so every instance is true. *)
Definition Namespace_bool (args : Namespace) : bool := true.

(** [args.id]; [args.func] lives in [dispatch]. *)
Definition Namespace_id (args : Namespace) : result string :=
  match args with
  | NsStatus id | NsAbort id => Ok id
  | _ => Raise AttributeError
  end.

(** The [uuid4] and the clock a handler draws. *)
Record env := { uuid : string; now : Z }.

(** A handler as [onMessage] calls it: [func (user=, args=, reply=)]. *)
Definition handler := Chromebot → User.t → Namespace → ReplyContext → env → outcome.

(** The decorator [voice] *)
Definition voice (func : handler) : handler :=
  fun self user args reply e =>
    if decide (modes_of self user ∩ {[ NickMode.operator; NickMode.voice ]} = ∅) then
      Outcome (send reply MustHaveVoice self) None
    else func self user args reply e.

(** The decorator [jobExists]; a [Job] object is always true, so [not j]
    holds for [None] only. *)
Definition jobExists
    (func : Chromebot → User.t → Namespace → ReplyContext → string → Job.t → env → outcome)
  : handler :=
  fun self user args reply e =>
    match Namespace_id args with
    | Raise x => Outcome self (Some x)
    | Ok id =>
        match jobs self !! id with
        | None => Outcome (send reply (JobUnknown id) self) None
        | Some j => func self user args reply id j e
        end
    end.

(** [handleArchive] up to [async with self.processLimit], without its
    decorator.  The coroutine is then taken to be suspended at the gate
    ([AtGate]) until the event loop resumes it with [Acquired]; when the
    semaphore is free asyncio lets it in without suspending, which is the
    run in which [Acquired] follows at once. *)
Definition handleArchive_body : handler :=
  fun self user args reply e =>
    match args with
    | NsArchive url recursive concurrency =>
        let j := Job.init (uuid e) (now e) url (User.name user) in
        if decide (is_Some (jobs self !! Job.id j)) then Outcome self (Some AssertionError)
        else
          let self := with_jobs (<[Job.id j := j]> (jobs self)) self in
          let self := send reply (Queued url (Job.id j) recursive concurrency) self in
          Outcome (with_tasks (<[Job.id j := {| at_pc := AtGate; reply := reply |}]> (tasks self)) self)
                  None
    | _ => Outcome self (Some AttributeError)
    end.

Definition handleArchive : handler := voice handleArchive_body.

(** [handleStatus] *)
Definition handleStatus : handler :=
  jobExists (fun self user args reply key job e =>
    match formatStatus job with
    | Ok line => Outcome (send reply line self) None
    | Raise x => Outcome self (Some x)
    end).

(** What [handleAbort] does to the job once its checks have passed. *)
Definition abort_job (job : Job.t) : Job.t :=
  let job := Job.set_status Status.aborted job in
  if Job.live job then Job.set_process (Process.terminate <$> Job.process job) job
  else job.

(** [handleAbort]; [job] is the object registered under [key]. *)
Definition handleAbort : handler :=
  voice (jobExists (fun self user args reply key job e =>
    if decide (Job.status job = Status.pending ∨ Job.status job = Status.running) then
      Outcome (with_jobs (<[key := abort_job job]> (jobs self)) self) None
    else Outcome (send reply NotRunning self) None)).

(** [await args.func (user=user, args=args, reply=reply)] *)
Definition dispatch : handler :=
  fun self user args reply e =>
    match args with
    | NsEmpty => Outcome self (Some AttributeError)
    | NsArchive _ _ _ => handleArchive self user args reply e
    | NsStatus _ => handleStatus self user args reply e
    | NsAbort _ => handleAbort self user args reply e
    end.

(** [onMessage] *)
Definition onMessage (sender target message : string) (e : env) (self : Chromebot) : outcome :=
  if bool_decide (target ∈ channels self) && String.prefix (nick self) message then
    let '(self, members) := users_at target self in
    let user := default (User_init sender) (members !! sender) in
    let reply := {| target := target; user := user |} in
    let command := tail (split_space message) in
    match parser self command with
    | ParserError error usage => Outcome (send reply (ParseFailure error usage) self) None
    | Parsed args =>
        if negb (Namespace_bool args) then Outcome (send reply (NotUnderstood command) self) None
        else dispatch self user args reply e
    end
  else Outcome self None.

(** *** The run loop of [handleArchive] *)

(** A line read from the worker, by what [json.loads] makes of it. *)
Inductive line :=
| Undecodable
| Decodes (data : pyobj).

Definition json_loads (l : line) : result pyobj :=
  match l with
  | Undecodable => Raise JSONDecodeError
  | Decodes data => Ok data
  end.

Definition uuid_stats : string := "24d92d16-770e-4088-b769-4020e127a7ff".
Definition uuid_rstats : string := "5b8498e4-868d-413c-a67e-004516b8452c".

(** The body of the [while] loop for one non-empty line: the job as the
    body leaves it and the exception that ends the body, if any. *)
Definition handle_line (l : line) (j : Job.t) : Job.t * option exn :=
  let j := if decide (Job.status j = Status.pending)
           then Job.set_status Status.running j else j in
  match json_loads l with
  | Raise x => (j, Some x)
  | Ok (PDict data) =>
      let msgid := dict_get data "uuid" PNone in
      if eq_str msgid uuid_stats then (Job.set_stats data j, None)
      else if eq_str msgid uuid_rstats then (Job.set_rstats data j, None)
      else (j, None)
  | Ok _ => (j, Some AttributeError)
  end.

(** The frame [t] suspended at [p]. *)
Definition suspended (p : pc) (t : Task) : Task := {| at_pc := p; reply := reply t |}.

Definition set_pc (id : string) (p : pc) (self : Chromebot) : Chromebot :=
  with_tasks (alter (suspended p) id (tasks self)) self.

Definition set_job (id : string) (j : Job.t) (self : Chromebot) : Chromebot :=
  with_jobs (<[id := j]> (jobs self)) self.

(** Leaving [async with self.processLimit], normally or by an exception. *)
Definition release (self : Chromebot) : Chromebot :=
  with_processLimit (S (processLimit self)) self.

(** [handleArchive] after the [async with] block: the job ... *)
Definition finish_job (now : Z) (j : Job.t) : Job.t :=
  Job.set_finished (Some now)
    (if decide (Job.status j = Status.running)
     then Job.set_status Status.finished j else j).

(** ... and the final reply, where [formatStatus] may raise. *)
Definition finish_pc (now : Z) (j : Job.t) : pc :=
  match formatStatus (finish_job now j) with
  | Ok _ => Returned
  | Raise x => Failed x
  end.

Definition finish (id : string) (now : Z) (j : Job.t) (t : Task) (self : Chromebot) : Chromebot :=
  let self := set_job id (finish_job now j) self in
  match formatStatus (finish_job now j) with
  | Ok text => set_pc id Returned (send (reply t) text self)
  | Raise x => set_pc id (Failed x) self
  end.

(** What the event loop delivers: an IRC event to its handler, or the
    result a suspended [handleArchive] is waiting for. *)
Inductive event :=
| NameReply (channel : string) (names : list string)
| Mode (channel modes : string) (params : list string)
| Part (nick channel : string)
| Join (nick channel : string)
| Privmsg (sender target message : string) (e : env)
| Acquired (id : string) (now : Z)       (** the semaphore lets the coroutine in *)
| Spawned (id : string)                  (** [create_subprocess_exec] returned *)
| SpawnFailed (id : string)              (** [create_subprocess_exec] raised *)
| Readline (id : string) (data : option line)
                                         (** [readline] returned; [None] is [b''] *)
| ReadFailed (id : string)               (** [readline] raised: the line is longer
                                             than the limit of the stream *)
| Exited (id : string) (code : Z)        (** the worker exited: [returncode] is set *)
| Waited (id : string) (now : Z)         (** [process.wait ()] returned *).

(** One atomic block of the event loop; [None] when the event cannot
    occur in this state: a coroutine is resumed only where it is
    suspended, [Acquired] needs a free slot (whichever waiter gets it),
    [Waited] needs the worker to have exited.  An exception that leaves an
    IRC handler is logged by the loop and otherwise lost; one that leaves
    [handleArchive] is recorded in its [pc]. *)
Definition step (self : Chromebot) (ev : event) : option Chromebot :=
  match ev with
  | NameReply channel names => Some (after (onNameReply channel names self))
  | Mode channel modes params => Some (onMode channel modes params self)
  | Part nick channel => Some (onPart nick channel self)
  | Join nick channel => Some (onJoin nick channel self)
  | Privmsg sender target message e => Some (after (onMessage sender target message e self))
  | Acquired id now =>
      match tasks self !! id, jobs self !! id with
      | Some t, Some j =>
          if decide (at_pc t = AtGate ∧ processLimit self ≠ 0%nat) then
            let self := with_processLimit (pred (processLimit self)) self in
            if decide (Job.status j = Status.pending) then Some (set_pc id Spawning self)
            else Some (finish id now j t (release self))
          else None
      | _, _ => None
      end
  | Spawned id =>
      match tasks self !! id, jobs self !! id with
      | Some t, Some j =>
          if decide (at_pc t = Spawning) then
            Some (set_pc id Reading (set_job id (Job.set_process (Some Process.spawn) j) self))
          else None
      | _, _ => None
      end
  | SpawnFailed id =>
      match tasks self !! id with
      | Some t =>
          if decide (at_pc t = Spawning) then Some (set_pc id (Failed OSError) (release self))
          else None
      | None => None
      end
  | Readline id data =>
      match tasks self !! id, jobs self !! id with
      | Some t, Some j =>
          if decide (at_pc t = Reading) then
            match data with
            | None => Some (set_pc id Waiting self)
            | Some l =>
                let '(j', x) := handle_line l j in
                let self := set_job id j' self in
                match x with
                | None => Some self
                | Some x => Some (set_pc id (Failed x) (release self))
                end
            end
          else None
      | _, _ => None
      end
  | ReadFailed id =>
      match tasks self !! id with
      | Some t =>
          if decide (at_pc t = Reading) then Some (set_pc id (Failed ValueError) (release self))
          else None
      | None => None
      end
  | Exited id code =>
      match jobs self !! id with
      | Some j =>
          if Job.live j then
            Some (set_job id (Job.set_process (Process.exit code <$> Job.process j) j) self)
          else None
      | None => None
      end
  | Waited id now =>
      match tasks self !! id, jobs self !! id with
      | Some t, Some j =>
          if bool_decide (at_pc t = Waiting) && negb (Job.live j) then
            Some (finish id now j t (release self))
          else None
      | _, _ => None
      end
  end.

Fixpoint run (self : Chromebot) (evs : list event) : option Chromebot :=
  match evs with
  | [] => Some self
  | ev :: rest =>
      match step self ev with
      | Some self' => run self' rest
      | None => None
      end
  end.

(** *** [getParser]

    The parser is argparse's; this is its behaviour on the plain forms
    of the three sub-commands ([a URL] with [-j N] and [-r P] given as
    separate words, [s ID], [r ID]) and on an empty command line, where
    argparse returns an empty namespace because a sub-command is
    optional.  Abbreviated or joined options ([--conc], [-j2], [--x=y])
    are not covered and are rejected here. *)
Definition int_1_4 (s : string) : option Z :=
  if decide (s = "1") then Some 1 else if decide (s = "2") then Some 2
  else if decide (s = "3") then Some 3 else if decide (s = "4") then Some 4
  else None.

Fixpoint parse_archive (usage : string) (tokens : list string)
    (url : option string) (recursive : string) (concurrency : Z) : parsed :=
  match tokens with
  | [] =>
      match url with
      | Some u => Parsed (NsArchive u recursive concurrency)
      | None => ParserError "the following arguments are required: URL" usage
      end
  | t :: rest =>
      if decide (t = "--concurrency" ∨ t = "-j") then
        match rest with
        | v :: rest' =>
            match int_1_4 v with
            | Some n => parse_archive usage rest' url recursive n
            | None => ParserError "argument --concurrency/-j: invalid choice" usage
            end
        | [] => ParserError "argument --concurrency/-j: expected one argument" usage
        end
      else if decide (t = "--recursive" ∨ t = "-r") then
        match rest with
        | v :: rest' =>
            if decide (v = "0" ∨ v = "1" ∨ v = "prefix")
            then parse_archive usage rest' url v concurrency
            else ParserError "argument --recursive/-r: invalid choice" usage
        | [] => ParserError "argument --recursive/-r: expected one argument" usage
        end
      else
        match url, isValidUrl t with
        | None, Ok u => parse_archive usage rest (Some u) recursive concurrency
        | None, Raise _ => ParserError "argument URL: invalid isValidUrl value" usage
        | Some _, _ => ParserError "unrecognized arguments" usage
        end
  end.

Definition parse_id (usage : string) (mk : string → Namespace) (tokens : list string) : parsed :=
  match tokens with
  | [id] =>
      if String.prefix "-" id then ParserError "unrecognized arguments" usage
      else Parsed (mk id)
  | [] => ParserError "the following arguments are required: UUID" usage
  | _ => ParserError "unrecognized arguments" usage
  end.

Definition getParser (nick : string) (command : list string) : parsed :=
  let prog := nick +:+ ": " in
  match command with
  | [] => Parsed NsEmpty
  | sub :: rest =>
      if decide (sub = "a") then
        parse_archive ("usage: " +:+ prog +:+ "a [--concurrency {1,2,3,4}] [--recursive {0,1,prefix}] URL ")
          rest None "0" 1
      else if decide (sub = "s") then parse_id ("usage: " +:+ prog +:+ "s UUID ") NsStatus rest
      else if decide (sub = "r") then parse_id ("usage: " +:+ prog +:+ "r UUID ") NsAbort rest
      else ParserError "argument {a,s,r}: invalid choice" ("usage: " +:+ prog +:+ "{a,s,r} ... ")
  end.

(** [Chromebot.__init__]: no job, an empty membership map, the semaphore
    at its configured value; the store holds the default [set ()] of
    [User.__init__].  [parse_args] is the parser [self.getParser ()]
    returns. *)
Definition Chromebot_init (nick : string) (channels : list string) (limit : nat)
    (parse_args : list string → parsed) : Chromebot :=
  {| nick := nick; channels := channels; users := ∅; sets := [∅];
     parser := parse_args; jobs := ∅; tasks := ∅;
     processLimit := limit; sent := [] |}.

(** ** Auxiliary notions used by the statements *)

(** The running value of [prettyBytes] after [k] divisions by 1024. *)
Fixpoint divided (b : pyobj) (k : nat) : result pyobj :=
  match k with
  | O => Ok b
  | S k' => v ← divided b k'; truediv v 1024
  end.

(** The unit reached after [k] divisions. *)
Definition unit_at (k : nat) : string := nth k prefixes0 "".

(** The two recognized kinds of worker records and the field of the job
    each one is routed to. *)
Inductive kind := KindStats | KindRstats.

Definition kind_uuid (k : kind) : string :=
  match k with
  | KindStats => uuid_stats
  | KindRstats => uuid_rstats
  end.

Definition field_of (k : kind) (j : Job.t) : gmap string pyobj :=
  match k with
  | KindStats => Job.stats j
  | KindRstats => Job.rstats j
  end.

(** The record [data] carries the identifier of kind [k]. *)
Definition has_kind (k : kind) (data : gmap string pyobj) : Prop :=
  data !! "uuid" = Some (PStr (kind_uuid k)).

(** The edges of the job state machine. *)
Definition edge (a b : Status.t) : Prop :=
  (a = Status.pending ∧ b = Status.running)
  ∨ (a = Status.running ∧ b = Status.finished)
  ∨ (a = Status.running ∧ b = Status.aborted)
  ∨ (a = Status.pending ∧ b = Status.aborted).

Definition terminal (a : Status.t) : Prop :=
  a = Status.finished ∨ a = Status.aborted.

(** The coroutine is inside [async with self.processLimit]: it has
    acquired the semaphore and not yet released it. *)
Definition inside_gate (p : pc) : bool :=
  match p with
  | Spawning | Reading | Waiting => true
  | _ => false
  end.

Definition holds_slot (t : Task) : bool := inside_gate (at_pc t).

(** The coroutines that hold a slot. *)
Definition holders (self : Chromebot) : gmap string Task :=
  filter (λ kt, holds_slot kt.2 = true) (tasks self).

(** The event is not a failed read, and a line it delivers decodes to a
    JSON object. *)
Definition object_line (ev : event) : bool :=
  match ev with
  | Readline _ (Some (Decodes (PDict _))) => true
  | Readline _ (Some _) => false
  | ReadFailed _ => false
  | _ => true
  end.

(** The invariant of the gate: the free slots and the coroutines inside
    the gate add up to the limit; every job has its coroutine; a living
    worker belongs to a coroutine that reads from it or waits for it. *)
Definition gate_invariant (limit : nat) (self : Chromebot) : Prop :=
  (processLimit self + size (holders self) = limit)%nat
  ∧ (∀ id, is_Some (tasks self !! id) ↔ is_Some (jobs self !! id))
  ∧ (∀ id j, jobs self !! id = Some j → Job.live j = true →
       ∃ t, tasks self !! id = Some t ∧ (at_pc t = Reading ∨ at_pc t = Waiting)).

(** The coroutine is not (and, with a status other than pending, will
    not get) inside the gate. *)
Definition outside_gate (t : Task) : Prop :=
  at_pc t = AtGate ∨ at_pc t = Returned ∨ ∃ x, at_pc t = Failed x.

(** The job [id] is aborted, has no process, and its coroutine has not
    entered the block that spawns one. *)
Definition aborted_unspawned (id : string) (self : Chromebot) : Prop :=
  ∃ j t, jobs self !! id = Some j ∧ Job.status j = Status.aborted
         ∧ Job.process j = None
         ∧ tasks self !! id = Some t ∧ outside_gate t.

(** The jobs in status [running] whose worker process lives. *)
Definition running_live (self : Chromebot) : gmap string Job.t :=
  filter (λ kj, Job.status kj.2 = Status.running ∧ Job.live kj.2 = true) (jobs self).

(** [self'] has the registry, the coroutines and the semaphore of [self]. *)
Definition same_jobs (self self' : Chromebot) : Prop :=
  jobs self' = jobs self ∧ tasks self' = tasks self
  ∧ processLimit self' = processLimit self.

(** What one block of the event loop does to the registry, the
    coroutines and the semaphore. *)
Inductive effect (self self' : Chromebot) : event → Prop :=
| eff_silent ev :
    jobs self' = jobs self →
    tasks self' = tasks self →
    processLimit self' = processLimit self →
    (∀ id data, ev ≠ Readline id data) →
    effect self self' ev
| eff_queued sender target message e url nick t :
    jobs self !! uuid e = None →
    jobs self' = <[uuid e := Job.init (uuid e) (now e) url nick]> (jobs self) →
    tasks self' = <[uuid e := t]> (tasks self) →
    at_pc t = AtGate →
    processLimit self' = processLimit self →
    effect self self' (Privmsg sender target message e)
| eff_aborted sender target message e id j :
    jobs self !! id = Some j →
    Job.status j = Status.pending ∨ Job.status j = Status.running →
    jobs self' = <[id := abort_job j]> (jobs self) →
    tasks self' = tasks self →
    processLimit self' = processLimit self →
    effect self self' (Privmsg sender target message e)
| eff_acquired id now t j :
    tasks self !! id = Some t → jobs self !! id = Some j →
    at_pc t = AtGate → processLimit self ≠ 0%nat →
    Job.status j = Status.pending →
    jobs self' = jobs self →
    tasks self' = <[id := suspended Spawning t]> (tasks self) →
    processLimit self' = pred (processLimit self) →
    effect self self' (Acquired id now)
| eff_skipped id now t j :
    tasks self !! id = Some t → jobs self !! id = Some j →
    at_pc t = AtGate → processLimit self ≠ 0%nat →
    Job.status j ≠ Status.pending →
    jobs self' = <[id := finish_job now j]> (jobs self) →
    tasks self' = <[id := suspended (finish_pc now j) t]> (tasks self) →
    processLimit self' = processLimit self →
    effect self self' (Acquired id now)
| eff_spawned id t j :
    tasks self !! id = Some t → jobs self !! id = Some j →
    at_pc t = Spawning →
    jobs self' = <[id := Job.set_process (Some Process.spawn) j]> (jobs self) →
    tasks self' = <[id := suspended Reading t]> (tasks self) →
    processLimit self' = processLimit self →
    effect self self' (Spawned id)
| eff_spawn_failed id t :
    tasks self !! id = Some t →
    at_pc t = Spawning →
    jobs self' = jobs self →
    tasks self' = <[id := suspended (Failed OSError) t]> (tasks self) →
    processLimit self' = S (processLimit self) →
    effect self self' (SpawnFailed id)
| eff_eof id t j :
    tasks self !! id = Some t → jobs self !! id = Some j →
    at_pc t = Reading →
    jobs self' = jobs self →
    tasks self' = <[id := suspended Waiting t]> (tasks self) →
    processLimit self' = processLimit self →
    effect self self' (Readline id None)
| eff_line id l t j :
    tasks self !! id = Some t → jobs self !! id = Some j →
    at_pc t = Reading →
    (handle_line l j).2 = None →
    jobs self' = <[id := (handle_line l j).1]> (jobs self) →
    tasks self' = tasks self →
    processLimit self' = processLimit self →
    effect self self' (Readline id (Some l))
| eff_line_raised id l t j x :
    tasks self !! id = Some t → jobs self !! id = Some j →
    at_pc t = Reading →
    (handle_line l j).2 = Some x →
    jobs self' = <[id := (handle_line l j).1]> (jobs self) →
    tasks self' = <[id := suspended (Failed x) t]> (tasks self) →
    processLimit self' = S (processLimit self) →
    effect self self' (Readline id (Some l))
| eff_read_failed id t :
    tasks self !! id = Some t →
    at_pc t = Reading →
    jobs self' = jobs self →
    tasks self' = <[id := suspended (Failed ValueError) t]> (tasks self) →
    processLimit self' = S (processLimit self) →
    effect self self' (ReadFailed id)
| eff_exited id code j :
    jobs self !! id = Some j →
    Job.live j = true →
    jobs self' = <[id := Job.set_process (Process.exit code <$> Job.process j) j]> (jobs self) →
    tasks self' = tasks self →
    processLimit self' = processLimit self →
    effect self self' (Exited id code)
| eff_waited id now t j :
    tasks self !! id = Some t → jobs self !! id = Some j →
    at_pc t = Waiting →
    Job.live j = false →
    jobs self' = <[id := finish_job now j]> (jobs self) →
    tasks self' = <[id := suspended (finish_pc now j) t]> (tasks self) →
    processLimit self' = S (processLimit self) →
    effect self self' (Waited id now).

(** The membership map of a channel as a reader of the bot sees it: for
    every nick the name of its [User] and the content of the [set] its
    [modes] refers to. *)
Definition members (self : Chromebot) (channel : string) : gmap string (string * gset NickMode.t) :=
  (λ u, (User.name u, modes_of self u)) <$> default ∅ (users self !! channel).

(** ** Scenarios

    A bot with one channel and one worker slot; alice has voice, bob has
    not.  The states below are reached from the initial state by the
    listed events. *)
Definition bot0 : Chromebot :=
  Chromebot_init "chromebot" ["#crocoite"] 1 (getParser "chromebot").

Definition archive (sender id url : string) : event :=
  Privmsg sender "#crocoite" ("chromebot: a " +:+ url) {| uuid := id; now := 0 |}.

Definition abort (sender id : string) : event :=
  Privmsg sender "#crocoite" ("chromebot: r " +:+ id) {| uuid := ""; now := 0 |}.

Definition names : event := NameReply "#crocoite" ["+alice"; "bob"].

(** job-1 is queued. *)
Definition evs_queued : list event :=
  [names; archive "alice" "job-1" "http://example.org"].

(** job-1 has a worker and waits for its first line. *)
Definition evs_reading : list event :=
  evs_queued ++ [Acquired "job-1" 1; Spawned "job-1"].

Definition after_run (evs : list event) : Chromebot := default bot0 (run bot0 evs).

(** job-1 holds the only slot; job-2 is queued behind it and aborted
    there; job-1's worker ends and job-2's run loop gets the slot. *)
Definition evs_second_queued : list event :=
  evs_reading ++ [archive "alice" "job-2" "http://example.com"].

Definition evs_first_ends : list event :=
  [Readline "job-1" None; Exited "job-1" 0; Waited "job-1" 7; Acquired "job-2" 8].

(** The worker of job-1 writes a line that is not JSON; job-2 is then
    admitted and its worker reports. *)
Definition evs_two_running : list event :=
  evs_reading
  ++ [Readline "job-1" (Some Undecodable);
      archive "alice" "job-2" "http://example.com";
      Acquired "job-2" 2; Spawned "job-2";
      Readline "job-2" (Some (Decodes (PDict {[ "uuid" := PStr uuid_stats ]})))].

Definition record_a1 : gmap string pyobj :=
  {[ "uuid" := PStr uuid_stats; "requests" := PInt 1; "failed" := PInt 2 ]}.
Definition record_a2 : gmap string pyobj :=
  {[ "uuid" := PStr uuid_stats; "requests" := PInt 5 ]}.
Definition record_other : gmap string pyobj :=
  {[ "uuid" := PStr "00000000-0000-0000-0000-000000000000"; "msg" := PStr "hello" ]}.

(** ** [prettyTimeDelta]

    The argument is an [int], on which [int (seconds)] is the identity. *)





(** ** Further notions used by the statements *)

(** A value that is neither an [int], a [bool] nor a [float]. *)
Definition not_a_number (v : pyobj) : Prop :=
  match v with
  | PNone | PStr _ | PList _ | PDict _ => True
  | _ => False
  end.

(** A record of kind A whose [bytesRcv] is a string. *)
Definition record_bad : gmap string pyobj :=
  {[ "uuid" := PStr uuid_stats; "bytesRcv" := PStr "many" ]}.

(** A record of kind A with all counters. *)
Definition record_full : gmap string pyobj :=
  {[ "uuid" := PStr uuid_stats; "bytesRcv" := PInt 1536; "requests" := PInt 7;
     "failed" := PInt 1; "crashed" := PInt 0 ]}.

(** alice, as the NAMES reply of the scenarios enters her, and bob. *)
Definition alice : User.t := User.Build "alice" 1.
Definition bob : User.t := User.Build "bob" 2.
Definition to_alice : ReplyContext := {| target := "#crocoite"; user := alice |}.
Definition to_bob : ReplyContext := {| target := "#crocoite"; user := bob |}.
Definition env0 : env := {| uuid := "job-9"; now := 3 |}.

(** job-1 as it is in [after_run evs_reading]. *)
Definition job1_pending : Job.t :=
  Job.Build "job-1" ∅ ∅ 0 None "http://example.org" "alice" Status.pending
    (Some Process.spawn).

(** The job has had no termination request. *)
Definition never_terminated (j : Job.t) : Prop :=
  ∀ p, Job.process j = Some p → Process.terminated p = false.

(** job-1 is running ([evs_reading] and one stats record). *)
Definition evs_running : list event :=
  evs_reading ++ [Readline "job-1" (Some (Decodes (PDict record_a1)))].

Definition job1_running : Job.t :=
  Job.Build "job-1" record_a1 ∅ 0 None "http://example.org" "alice" Status.running
    (Some Process.spawn).

(** job-1 has the slot and its worker is being spawned. *)
Definition evs_spawning : list event := evs_queued ++ [Acquired "job-1" 1].

Definition job1_queued : Job.t :=
  Job.Build "job-1" ∅ ∅ 0 None "http://example.org" "alice" Status.pending None.

Definition task1 (p : pc) : Task := {| at_pc := p; reply := to_alice |}.

(** The worker of job-1 ends and its run loop finishes. *)
Definition evs_first_ends_1 : list event :=
  [Readline "job-1" None; Exited "job-1" 143; Waited "job-1" 7].

(** The job [id] is aborted and has had no termination request. *)
Definition aborted_unterminated (id : string) (self : Chromebot) : Prop :=
  ∃ j, jobs self !! id = Some j ∧ Job.status j = Status.aborted ∧ never_terminated j.

(** [j'] is the job [j] as far as what it was created with goes. *)
Definition same_identity (j j' : Job.t) : Prop :=
  Job.id j' = Job.id j ∧ Job.url j' = Job.url j
  ∧ Job.nick j' = Job.nick j ∧ Job.started j' = Job.started j.

(** The free slots and the run loops inside the gate add up to the
    limit, and the jobs are the ones that have a run loop. *)
Definition slots_invariant (limit : nat) (self : Chromebot) : Prop :=
  (processLimit self + size (holders self) = limit)%nat
  ∧ (∀ id, is_Some (tasks self !! id) ↔ is_Some (jobs self !! id)).

(** What one block of the event loop does to one job and to the point
    its run loop is suspended at. *)
Inductive job_step (j : Job.t) (p : pc) : Job.t → pc → Prop :=
| js_abort :
    Job.status j = Status.pending ∨ Job.status j = Status.running →
    job_step j p (abort_job j) p
| js_acquire :
    p = AtGate → Job.status j = Status.pending → job_step j p j Spawning
| js_skip now :
    p = AtGate → Job.status j ≠ Status.pending →
    job_step j p (finish_job now j) (finish_pc now j)
| js_spawned :
    p = Spawning → job_step j p (Job.set_process (Some Process.spawn) j) Reading
| js_spawn_failed :
    p = Spawning → job_step j p j (Failed OSError)
| js_eof :
    p = Reading → job_step j p j Waiting
| js_line l :
    p = Reading → (handle_line l j).2 = None → job_step j p (handle_line l j).1 Reading
| js_line_raised l x :
    p = Reading → (handle_line l j).2 = Some x → job_step j p (handle_line l j).1 (Failed x)
| js_read_failed :
    p = Reading → job_step j p j (Failed ValueError)
| js_exited code :
    Job.live j = true →
    job_step j p (Job.set_process (Process.exit code <$> Job.process j) j) p
| js_waited now :
    p = Waiting → Job.live j = false →
    job_step j p (finish_job now j) (finish_pc now j).

(** What holds of a job registered under [id] whose run loop is at [p]. *)
Definition lifecycle (id : string) (j : Job.t) (p : pc) : Prop :=
  Job.id j = id
  ∧ (Job.status j = Status.running → is_Some (Job.process j))
  ∧ (Job.status j = Status.finished →
       is_Some (Job.finished j) ∧ is_Some (Job.process j) ∧ Job.live j = false)
  ∧ (is_Some (Job.finished j) → p = Returned ∨ ∃ x, p = Failed x)
  ∧ (p = AtGate ∨ p = Spawning → Job.process j = None)
  ∧ (p = Reading ∨ p = Waiting →
       is_Some (Job.process j) ∧ Job.status j ≠ Status.finished).

Definition lifecycle_invariant (self : Chromebot) : Prop :=
  (∀ id, is_Some (tasks self !! id) ↔ is_Some (jobs self !! id))
  ∧ ∀ id j t, jobs self !! id = Some j → tasks self !! id = Some t →
      lifecycle id j (at_pc t).

(** The run loop of [id] ended when the worker could not be spawned. *)
Definition spawn_failed (id : string) (self : Chromebot) : Prop :=
  ∃ j t, jobs self !! id = Some j ∧ tasks self !! id = Some t
    ∧ at_pc t = Failed OSError
    ∧ (Job.status j = Status.pending ∨ Job.status j = Status.aborted)
    ∧ Job.process j = None ∧ Job.finished j = None.

(** job-1 after its worker has reported once and exited with code 143. *)
Definition job1_finished : Job.t :=
  Job.Build "job-1" record_a1 ∅ 0 (Some 7) "http://example.org" "alice" Status.finished
    (Some (Process.Build (Some 143) false)).

(** The characters [parseMode] takes for an action. *)
Definition is_sign (c : ascii) : bool := bool_decide (c = "+" ∨ c = "-")%char.

(** What an entry of a NAMES reply stands for: the nick and the modes
    its prefix gives. *)
Definition listed (name : string) : string * gset NickMode.t :=
  match name with
  | EmptyString => ("", ∅)
  | String c rest =>
      match NickMode.of_value c with
      | Some m => (rest, {[ m ]})
      | None => (name, ∅)
      end
  end.

(** A membership [dict] read with the store of sets [store]. *)
Definition view (store : list (gset NickMode.t)) (m : gmap string User.t)
  : gmap string (string * gset NickMode.t) :=
  (λ u, (User.name u, default ∅ (store !! User.modes u))) <$> m.

(** The users of [m] are stored under their names and hold sets of
    their own, built after [base]. *)
Definition own_sets (base : nat) (store : list (gset NickMode.t))
    (m : gmap string User.t) : Prop :=
  ∀ k u, m !! k = Some u →
    User.name u = k
    ∧ (base ≤ User.modes u < length store)%nat
    ∧ ∀ k' u', m !! k' = Some u' → User.modes u' = User.modes u → k' = k.

(** The string has no space in it. *)
Definition spaceless (s : string) : Prop :=
  Forall (λ c, c ≠ " "%char) (list_ascii_of_string s).

(** * Properties *)

(** ** Byte formatting *)

Lemma prettyBytes_loop_eq b prefixes :
  prettyBytes_loop b prefixes =
  (big ← ge_int b 1024;
   if big && (1 <? Z.of_nat (length prefixes)) then
     match prefixes with
     | _ :: rest => b' ← truediv b 1024; prettyBytes_loop b' rest
     | [] => Ok (b, prefixes)
     end
   else Ok (b, prefixes)).
Proof. by destruct prefixes. Qed.

Lemma float_of_int_1024 : float_of_int 1024 = Ok (S754_finite false 4503599627370496 (-42)).
Proof. reflexivity. Qed.

Lemma truediv_float f :
  truediv (PFloat f) 1024 = Ok (PFloat (b64_div f (S754_finite false 4503599627370496 (-42)))).
Proof. unfold truediv, float_truediv. by rewrite float_of_int_1024. Qed.

Lemma ge_int_float f : ∃ c, ge_int (PFloat f) 1024 = Ok c.
Proof. by eexists. Qed.

Lemma small_int_formats b :
  0 <= b < 1024 → ∃ s, format_1f (PInt b) = Ok s.
Proof.
  intros Hb.
  assert (Hall : forallb (λ n, match format_1f (PInt (Z.of_nat n)) with
                               | Ok _ => true
                               | Raise _ => false
                               end) (seq 0 1024) = true) by (vm_compute; reflexivity).
  rewrite forallb_forall in Hall.
  specialize (Hall (Z.to_nat b)).
  rewrite Z2Nat.id in Hall by lia.
  destruct (format_1f (PInt b)) as [s|] eqn:E; [by eexists|].
  exfalso. assert (false = true); [|done].
  apply Hall, in_seq. lia.
Qed.

Lemma divided_S_front b k :
  divided b (S k) = (v ← truediv b 1024; divided v k).
Proof.
  induction k as [|k IH].
  - change (divided b 1) with (truediv b 1024).
    by destruct (truediv b 1024).
  - change (divided b (S (S k))) with (v ← divided b (S k); truediv v 1024).
    rewrite IH. destruct (truediv b 1024) as [v|]; [|done].
    reflexivity.
Qed.

(** Once the running value is a float no division raises: the loop runs
    until the value is below 1024 or one prefix is left. *)
Lemma prettyBytes_loop_float prefixes : ∀ f,
  prefixes ≠ [] →
  ∃ (k : nat) (v : spec_float),
    (k < length prefixes)%nat
    ∧ divided (PFloat f) k = Ok (PFloat v)
    ∧ (∀ i, (i < k)%nat → ∃ u, divided (PFloat f) i = Ok u ∧ ge_int u 1024 = Ok true)
    ∧ (S k = length prefixes ∨ ge_int (PFloat v) 1024 = Ok false)
    ∧ prettyBytes_loop (PFloat f) prefixes = Ok (PFloat v, drop k prefixes).
Proof.
  induction prefixes as [|p rest IH]; intros f Hne; [done|].
  rewrite prettyBytes_loop_eq.
  destruct (ge_int_float f) as [c Hc]. rewrite Hc.
  change (mbind ?g (Ok c)) with (g c). cbv beta.
  destruct c; cycle 1.
  { exists 0%nat, f. repeat split; [cbn; lia | intros i Hi; lia | by right]. }
  destruct rest as [|q rest].
  { exists 0%nat, f. repeat split; [cbn; lia | intros i Hi; lia | by left]. }
  replace (true && (1 <? Z.of_nat (length (p :: q :: rest)))) with true
    by (symmetry; apply andb_true_intro; split; [done|]; apply Z.ltb_lt; cbn [length]; lia).
  rewrite truediv_float.
  change (mbind ?g (Ok ?x)) with (g x). cbv beta.
  destruct (IH (b64_div f (S754_finite false 4503599627370496 (-42))))
    as (k & v & Hk & Hdiv & Hbig & Hstop & Hloop); [done|].
  exists (S k), v. split; [cbn [length] in *; lia|].
  split.
  { rewrite divided_S_front, truediv_float. exact Hdiv. }
  split.
  { intros [|i] Hi.
    - exists (PFloat f). by split.
    - destruct (Hbig i) as (u & Hu & Hge); [lia|].
      exists u. split; [|done].
      rewrite divided_S_front, truediv_float. exact Hu. }
  split.
  { destruct Hstop as [Hstop|Hstop]; [left; cbn [length] in *; lia | by right]. }
  exact Hloop.
Qed.

Lemma int_truediv_cases a :
  (∃ f, int_truediv a 1024 = Ok f) ∨ int_truediv a 1024 = Raise OverflowError.
Proof.
  unfold int_truediv.
  change (1024 =? 0) with false. cbv iota.
  unfold finite_or_overflow.
  destruct (b64_div (exact_int a) (exact_int 1024)); eauto.
Qed.

(** C9 (as amended).  For every byte count [b >= 0] whose first division
    by 1024 does not overflow a binary64, [prettyBytes] divides [k] times
    by 1024, where every earlier running value was at least 1024 and the
    loop stopped because four divisions were done (the unit TiB is
    reached) or the value is below 1024; the result is that value to one
    decimal place, a space and the [k]-th unit.  In particular 0 gives
    "0.0 B", 1536 gives "1.5 KiB" and 1024 * 1024 gives "1.0 MiB". *)
Theorem prettyBytes_divides_then_renders (b : Z)
    (Hb : 0 <= b)
    (Hfit : int_truediv b 1024 ≠ Raise OverflowError) :
  (∃ (k : nat) (v : pyobj) (s : string),
      (k <= 4)%nat
      ∧ divided (PInt b) k = Ok v
      ∧ (∀ i, (i < k)%nat → ∃ u, divided (PInt b) i = Ok u ∧ ge_int u 1024 = Ok true)
      ∧ (k = 4%nat ∨ ge_int v 1024 = Ok false)
      ∧ format_1f v = Ok s
      ∧ prettyBytes (PInt b) = Ok (s +:+ " " +:+ unit_at k))
  ∧ prettyBytes (PInt 0) = Ok "0.0 B"
  ∧ prettyBytes (PInt 1536) = Ok "1.5 KiB"
  ∧ prettyBytes (PInt (1024 * 1024)) = Ok "1.0 MiB".
Proof.
  split; [|by vm_compute].
  unfold prettyBytes. rewrite prettyBytes_loop_eq.
  change (ge_int (PInt b) 1024) with (Ok (A:=bool) (1024 <=? b)).
  change (mbind ?g (Ok ?x)) with (g x). cbv beta.
  destruct (1024 <=? b) eqn:Hbig.
  - apply Z.leb_le in Hbig.
    change (true && (1 <? Z.of_nat (length prefixes0))) with true. cbv iota.
    unfold prefixes0 at 1.
    destruct (int_truediv_cases b) as [[f Hf]|Hov]; [|done].
    assert (Hdiv1 : truediv (PInt b) 1024 = Ok (PFloat f)).
    { unfold truediv. by rewrite Hf. }
    rewrite Hdiv1.
    change (mbind ?g (Ok ?x)) with (g x). cbv beta.
    destruct (prettyBytes_loop_float ["KiB"; "MiB"; "GiB"; "TiB"] f)
      as (k & v & Hk & Hdiv & Hbigs & Hstop & Hloop); [done|].
    rewrite Hloop.
    exists (S k), (PFloat v), (format_1f_float v).
    cbn [length] in Hk, Hstop.
    split; [lia|]. split.
    { rewrite divided_S_front, Hdiv1. exact Hdiv. }
    split.
    { intros [|i] Hi.
      - exists (PInt b). split; [done|]. cbn. f_equal. by apply Z.leb_le.
      - destruct (Hbigs i) as (u & Hu & Hge); [lia|].
        exists u. split; [|done]. rewrite divided_S_front, Hdiv1. exact Hu. }
    split; [destruct Hstop; [left; lia | by right]|].
    split; [done|].
    destruct k as [|[|[|[|k]]]]; try lia; reflexivity.
  - apply Z.leb_gt in Hbig.
    destruct (small_int_formats b) as [s Hs]; [lia|].
    exists 0%nat, (PInt b), s.
    split; [lia|]. split; [done|]. split; [intros i Hi; lia|].
    split.
    { right. cbn. f_equal. by apply Z.leb_gt. }
    split; [done|].
    cbn [andb]. change (mbind ?g (Ok ?x)) with (g x). cbv beta iota.
    rewrite Hs. reflexivity.
Qed.

Lemma prettyBytes_divides_then_renders_witness :
  ∃ (k : nat) (v : pyobj) (s : string),
      (k <= 4)%nat
      ∧ divided (PInt 1536) k = Ok v
      ∧ (∀ i, (i < k)%nat → ∃ u, divided (PInt 1536) i = Ok u ∧ ge_int u 1024 = Ok true)
      ∧ (k = 4%nat ∨ ge_int v 1024 = Ok false)
      ∧ format_1f v = Ok s
      ∧ prettyBytes (PInt 1536) = Ok (s +:+ " " +:+ unit_at k).
Proof.
  refine (proj1 (prettyBytes_divides_then_renders 1536 _ _)).
  - lia.
  - vm_compute. discriminate.
Defined.

(** Where the first division starts to overflow. *)
Lemma int_truediv_overflow_boundary :
  (∃ f, int_truediv (2 ^ 1034 - 2 ^ 980 - 1) 1024 = Ok f)
  ∧ int_truediv (2 ^ 1034 - 2 ^ 980) 1024 = Raise OverflowError.
Proof. split; [eexists|]; vm_compute; reflexivity. Qed.

(** C9, the claim as stated fails: a byte count whose quotient by 1024
    does not fit a binary64 makes the first division raise. *)
Lemma prettyBytes_overflow :
  0 <= 2 ^ 1034 ∧ prettyBytes (PInt (2 ^ 1034)) = Raise OverflowError.
Proof. split; [lia | by vm_compute]. Qed.

(** ** Worker output *)

Lemma eq_str_true v s : eq_str v s = true ↔ v = PStr s.
Proof.
  destruct v; cbn; try (split; [discriminate | congruence]).
  rewrite bool_decide_eq_true. split; congruence.
Qed.

Lemma eq_str_false v s : eq_str v s = false ↔ v ≠ PStr s.
Proof.
  rewrite <- eq_str_true. destruct (eq_str v s); split; congruence.
Qed.

Lemma handle_line_status l j :
  Job.status (handle_line l j).1 =
  if decide (Job.status j = Status.pending) then Status.running else Job.status j.
Proof.
  unfold handle_line.
  destruct (decide (Job.status j = Status.pending));
    destruct l as [|[| | | | | |data]]; cbn; try done;
    repeat (case_match; cbn; try done).
Qed.

Lemma handle_line_process l j : Job.process (handle_line l j).1 = Job.process j.
Proof.
  unfold handle_line.
  destruct (decide (Job.status j = Status.pending));
    destruct l as [|[| | | | | |data]]; cbn; try done;
    repeat (case_match; cbn; try done).
Qed.

(** A record of kind [k] replaces the field of kind [k] and raises
    nothing. *)
Lemma handle_line_kind k data j :
  has_kind k data →
  (handle_line (Decodes (PDict data)) j).2 = None
  ∧ field_of k (handle_line (Decodes (PDict data)) j).1 = data.
Proof.
  unfold has_kind, handle_line. intros Hk. cbn [json_loads].
  unfold dict_get. rewrite Hk.
  destruct k; cbn [kind_uuid].
  - replace (eq_str (PStr uuid_stats) uuid_stats) with true
      by (symmetry; by apply eq_str_true).
    done.
  - replace (eq_str (PStr uuid_rstats) uuid_stats) with false
      by (symmetry; apply eq_str_false; intros [=]).
    replace (eq_str (PStr uuid_rstats) uuid_rstats) with true
      by (symmetry; by apply eq_str_true).
    done.
Qed.

(** A record of neither kind changes neither field and raises nothing. *)
Lemma handle_line_other data j :
  dict_get data "uuid" PNone ≠ PStr uuid_stats →
  dict_get data "uuid" PNone ≠ PStr uuid_rstats →
  (handle_line (Decodes (PDict data)) j).2 = None
  ∧ Job.stats (handle_line (Decodes (PDict data)) j).1 = Job.stats j
  ∧ Job.rstats (handle_line (Decodes (PDict data)) j).1 = Job.rstats j.
Proof.
  intros H1%eq_str_false H2%eq_str_false.
  unfold handle_line. cbn [json_loads]. rewrite H1, H2.
  by destruct (decide (Job.status j = Status.pending)).
Qed.

(** Reading a line that decodes to an object leaves the coroutine at
    [readline], with the job as [handle_line] leaves it. *)
Lemma step_Readline_object self id data t j :
  tasks self !! id = Some t →
  at_pc t = Reading →
  jobs self !! id = Some j →
  (handle_line (Decodes (PDict data)) j).2 = None →
  step self (Readline id (Some (Decodes (PDict data))))
  = Some (set_job id (handle_line (Decodes (PDict data)) j).1 self).
Proof.
  intros Ht Hpc Hj Hnone. unfold step. rewrite Ht, Hj.
  rewrite decide_True by done.
  destruct (handle_line (Decodes (PDict data)) j) as [j' x] eqn:E.
  cbn in Hnone. subst x. reflexivity.
Qed.

(** C6.  Two successive records of the same kind, with payloads [p1]
    then [p2]: after both, the field of that kind is exactly [p2]; no key
    of [p1] that [p2] lacks is kept. *)
Theorem stats_replaced_not_merged
    (self self1 : Chromebot) (id : string) (k : kind) (p1 p2 : gmap string pyobj)
    (H1 : has_kind k p1)
    (H2 : has_kind k p2)
    (Hstep1 : step self (Readline id (Some (Decodes (PDict p1)))) = Some self1) :
  ∃ self2 j,
    step self1 (Readline id (Some (Decodes (PDict p2)))) = Some self2
    ∧ jobs self2 !! id = Some j
    ∧ field_of k j = p2
    ∧ ∀ key, p2 !! key = None → field_of k j !! key = None.
Proof.
  unfold step in Hstep1.
  destruct (tasks self !! id) as [t|] eqn:Ht; [|done].
  destruct (jobs self !! id) as [j|] eqn:Hj; [|done].
  destruct (decide (at_pc t = Reading)) as [Hpc|]; [|done].
  destruct (handle_line_kind k p1 j H1) as [Hnone1 Hfield1].
  destruct (handle_line (Decodes (PDict p1)) j) as [j1 x1] eqn:E1.
  cbn in Hnone1. subst x1. injection Hstep1 as <-.
  destruct (handle_line_kind k p2 j1 H2) as [Hnone2 Hfield2].
  eexists _, _. split.
  { eapply step_Readline_object; [exact Ht | exact Hpc | |exact Hnone2].
    cbn. apply lookup_insert_eq. }
  split; [cbn; apply lookup_insert_eq|].
  split; [exact Hfield2|].
  intros key Hkey. etrans; [|exact Hkey]. f_equal. exact Hfield2.
Qed.

Lemma stats_replaced_not_merged_witness :
  ∃ self2 j,
    step (after_run (evs_reading ++ [Readline "job-1" (Some (Decodes (PDict record_a1)))]))
         (Readline "job-1" (Some (Decodes (PDict record_a2)))) = Some self2
    ∧ jobs self2 !! "job-1" = Some j
    ∧ field_of KindStats j = record_a2
    ∧ ∀ key, record_a2 !! key = None → field_of KindStats j !! key = None.
Proof.
  apply (stats_replaced_not_merged (after_run evs_reading) _ "job-1" KindStats
           record_a1 record_a2).
  - reflexivity.
  - reflexivity.
  - vm_compute. reflexivity.
Defined.

(** C4 (as amended).  A line that decodes to a JSON object whose [uuid]
    is neither recognized identifier (or is missing) raises nothing,
    leaves [stats] and [rstats] as they were, and leaves the coroutine
    reading the next line. *)
Theorem unrecognized_record_ignored
    (self : Chromebot) (id : string) (t : Task) (j : Job.t) (data : gmap string pyobj)
    (Ht : tasks self !! id = Some t)
    (Hpc : at_pc t = Reading)
    (Hj : jobs self !! id = Some j)
    (Hstats : dict_get data "uuid" PNone ≠ PStr uuid_stats)
    (Hrstats : dict_get data "uuid" PNone ≠ PStr uuid_rstats) :
  ∃ self' j',
    step self (Readline id (Some (Decodes (PDict data)))) = Some self'
    ∧ tasks self' !! id = Some t
    ∧ jobs self' !! id = Some j'
    ∧ Job.stats j' = Job.stats j
    ∧ Job.rstats j' = Job.rstats j.
Proof.
  destruct (handle_line_other data j Hstats Hrstats) as (Hnone & Hs & Hr).
  eexists _, _.
  split; [exact (step_Readline_object self id data t j Ht Hpc Hj Hnone)|].
  split; [exact Ht|].
  split; [cbn; apply lookup_insert_eq|].
  by split.
Qed.

Lemma unrecognized_record_ignored_witness :
  ∃ self' j',
    step (after_run evs_reading) (Readline "job-1" (Some (Decodes (PDict record_other))))
    = Some self'
    ∧ tasks self' !! "job-1"
      = Some {| at_pc := Reading;
                reply := {| target := "#crocoite"; user := User.Build "alice" 1 |} |}
    ∧ jobs self' !! "job-1" = Some j'
    ∧ Job.stats j' = ∅
    ∧ Job.rstats j' = ∅.
Proof.
  eapply (unrecognized_record_ignored (after_run evs_reading) "job-1" _
            (Job.Build "job-1" ∅ ∅ 0 None "http://example.org" "alice" Status.pending
               (Some Process.spawn))
            record_other).
  - vm_compute. reflexivity.
  - reflexivity.
  - vm_compute. reflexivity.
  - vm_compute. discriminate.
  - vm_compute. discriminate.
Defined.

(** C4, the claim as stated fails for a line that is not valid JSON:
    [json.loads] raises, the exception leaves the handler (releasing the
    slot), and no further line is read. *)
Lemma undecodable_line_raises :
  step (after_run evs_reading) (Readline "job-1" (Some Undecodable))
  = Some (after_run (evs_reading ++ [Readline "job-1" (Some Undecodable)]))
  ∧ at_pc <$> tasks (after_run (evs_reading ++ [Readline "job-1" (Some Undecodable)])) !! "job-1"
    = Some (Failed JSONDecodeError)
  ∧ step (after_run (evs_reading ++ [Readline "job-1" (Some Undecodable)]))
         (Readline "job-1" (Some (Decodes (PDict record_a1)))) = None.
Proof. split; [|split]; vm_compute; reflexivity. Qed.

(** ** The effect of one block of the event loop *)

Lemma same_jobs_refl self : same_jobs self self.
Proof. by repeat split. Qed.

Lemma same_jobs_trans a b c : same_jobs a b → same_jobs b c → same_jobs a c.
Proof. intros (?&?&?) (?&?&?). repeat split; congruence. Qed.

Lemma send_same_jobs ctx text self : same_jobs self (send ctx text self).
Proof. by repeat split. Qed.

Lemma users_at_same_jobs channel self : same_jobs self (users_at channel self).1.
Proof. unfold users_at. by destruct (users self !! channel). Qed.

Lemma users_at_parser channel self : parser (users_at channel self).1 = parser self.
Proof. unfold users_at. by destruct (users self !! channel). Qed.

Lemma onNameReply_same_jobs channel names self :
  same_jobs self (after (onNameReply channel names self)).
Proof. unfold onNameReply. by destruct (fromNames names ∅ (sets self)) as [[m st]|]. Qed.

Lemma onMode_apply_same_jobs channel self item :
  same_jobs self (onMode_apply channel self item).
Proof.
  destruct item as [[action mode] who]. unfold onMode_apply.
  destruct (NickMode.fromMode mode) as [m|]; [|apply same_jobs_refl].
  pose proof (users_at_same_jobs channel self) as Hs.
  destruct (users_at channel self) as [self1 members]. cbn [fst] in Hs.
  eapply same_jobs_trans; [exact Hs|].
  repeat case_decide; by repeat split.
Qed.

Lemma onMode_same_jobs channel modes params self :
  same_jobs self (onMode channel modes params self).
Proof.
  unfold onMode. case_decide as Hc; [clear Hc|apply same_jobs_refl].
  generalize (zip (parseMode modes) params). intros items.
  revert self. induction items as [|item items IH]; intros self; [apply same_jobs_refl|].
  cbn [foldl]. eapply same_jobs_trans; [apply onMode_apply_same_jobs | apply IH].
Qed.

Lemma onPart_same_jobs who channel self : same_jobs self (onPart who channel self).
Proof.
  unfold onPart. case_decide; [|apply same_jobs_refl].
  pose proof (users_at_same_jobs channel self) as Hs.
  destruct (users_at channel self) as [self1 members]. cbn [fst] in Hs.
  eapply same_jobs_trans; [exact Hs|]. by repeat split.
Qed.

Lemma onJoin_same_jobs who channel self : same_jobs self (onJoin who channel self).
Proof.
  unfold onJoin. case_decide; [|apply same_jobs_refl].
  pose proof (users_at_same_jobs channel self) as Hs.
  destruct (users_at channel self) as [self1 members]. cbn [fst] in Hs.
  eapply same_jobs_trans; [exact Hs|]. by repeat split.
Qed.

Lemma same_jobs_silent self self' ev :
  same_jobs self self' → (∀ id data, ev ≠ Readline id data) → effect self self' ev.
Proof. intros (?&?&?) ?. by apply eff_silent. Qed.

(** A handler called by [onMessage] leaves the orchestration alone,
    queues a new job, or aborts a registered one. *)
Lemma dispatch_effect self user args ctx e sender tgt message :
  effect self (after (dispatch self user args ctx e)) (Privmsg sender tgt message e).
Proof.
  assert (Hev : ∀ id data, Privmsg sender tgt message e ≠ Readline id data) by done.
  destruct args as [|url recursive concurrency|id|id]; cbn [dispatch].
  - by apply same_jobs_silent; [apply same_jobs_refl|].
  - unfold handleArchive, voice. case_decide.
    { by apply same_jobs_silent; [apply send_same_jobs|]. }
    unfold handleArchive_body. cbn [Job.id Job.init]. case_decide as Hdup.
    { by apply same_jobs_silent; [apply same_jobs_refl|]. }
    eapply eff_queued; cbn; try reflexivity.
    destruct (jobs self !! uuid e) eqn:E; [|done]. exfalso. apply Hdup. by eexists.
  - unfold handleStatus, jobExists. cbn [Namespace_id].
    destruct (jobs self !! id) as [j|].
    + destruct (formatStatus j);
        by apply same_jobs_silent; [first [apply send_same_jobs | apply same_jobs_refl]|].
    + by apply same_jobs_silent; [apply send_same_jobs|].
  - unfold handleAbort, voice. case_decide.
    { by apply same_jobs_silent; [apply send_same_jobs|]. }
    unfold jobExists. cbn [Namespace_id].
    destruct (jobs self !! id) as [j|] eqn:Hj.
    + case_decide as Hst.
      * by eapply eff_aborted.
      * by apply same_jobs_silent; [apply send_same_jobs|].
    + by apply same_jobs_silent; [apply send_same_jobs|].
Qed.

Lemma effect_same_jobs_l self0 self self' ev :
  same_jobs self0 self → effect self self' ev → effect self0 self' ev.
Proof.
  intros (Hj & Ht & Hp) Heff.
  destruct Heff;
    [ eapply eff_silent | eapply eff_queued | eapply eff_aborted | eapply eff_acquired
    | eapply eff_skipped | eapply eff_spawned | eapply eff_spawn_failed | eapply eff_eof
    | eapply eff_line | eapply eff_line_raised | eapply eff_read_failed
    | eapply eff_exited | eapply eff_waited ];
    rewrite <- ?Hj, <- ?Ht, <- ?Hp; eassumption.
Qed.

Lemma onMessage_effect sender tgt message e self :
  effect self (after (onMessage sender tgt message e self)) (Privmsg sender tgt message e).
Proof.
  assert (Hev : ∀ id data, Privmsg sender tgt message e ≠ Readline id data) by done.
  unfold onMessage.
  destruct (bool_decide (tgt ∈ channels self) && String.prefix (nick self) message);
    [|by apply same_jobs_silent; [apply same_jobs_refl|]].
  pose proof (users_at_same_jobs tgt self) as Hs.
  destruct (users_at tgt self) as [self1 members]. cbn [fst] in Hs.
  eapply effect_same_jobs_l; [exact Hs|].
  destruct (parser self1 (tail (split_space message))) as [args|err usage].
  - unfold Namespace_bool. cbn [negb]. apply dispatch_effect.
  - by apply same_jobs_silent; [apply send_same_jobs|].
Qed.

Lemma alter_suspended id p t (m : gmap string Task) :
  m !! id = Some t → alter (suspended p) id m = <[id := suspended p t]> m.
Proof.
  intros Ht. apply map_eq. intros i.
  rewrite lookup_alter, lookup_insert.
  case_decide; subst; by rewrite ?Ht.
Qed.

Lemma finish_effect id now j t self :
  tasks self !! id = Some t →
  jobs (finish id now j t self) = <[id := finish_job now j]> (jobs self)
  ∧ tasks (finish id now j t self) = <[id := suspended (finish_pc now j) t]> (tasks self)
  ∧ processLimit (finish id now j t self) = processLimit self.
Proof.
  intros Ht. unfold finish, finish_pc.
  destruct (formatStatus (finish_job now j)); cbn; by rewrite (alter_suspended _ _ t).
Qed.

(** [step] as a relation: every block of the event loop has one of the
    effects listed by [effect]. *)
Lemma step_effect self ev self' : step self ev = Some self' → effect self self' ev.
Proof.
  destruct ev as [channel ns|channel modes params|who channel|who channel
                 |sender tgt message e|id now|id|id|id data|id|id code|id now];
    cbn [step]; intros Hstep.
  - injection Hstep as <-. by apply same_jobs_silent; [apply onNameReply_same_jobs|].
  - injection Hstep as <-. by apply same_jobs_silent; [apply onMode_same_jobs|].
  - injection Hstep as <-. by apply same_jobs_silent; [apply onPart_same_jobs|].
  - injection Hstep as <-. by apply same_jobs_silent; [apply onJoin_same_jobs|].
  - injection Hstep as <-. apply onMessage_effect.
  - destruct (tasks self !! id) as [t|] eqn:Ht; [|done].
    destruct (jobs self !! id) as [j|] eqn:Hj; [|done].
    case_decide as Hgate; [|done]. destruct Hgate as [Hpc Hsem].
    case_decide as Hst; injection Hstep as <-.
    + eapply eff_acquired; eauto. cbn. by apply alter_suspended.
    + destruct (finish_effect id now j t
                  (release (with_processLimit (pred (processLimit self)) self)) Ht)
        as (Hj' & Ht' & Hp').
      eapply eff_skipped; eauto.
      rewrite Hp'. cbn. lia.
  - destruct (tasks self !! id) as [t|] eqn:Ht; [|done].
    destruct (jobs self !! id) as [j|] eqn:Hj; [|done].
    case_decide as Hpc; [|done]. injection Hstep as <-.
    eapply eff_spawned; eauto. cbn. by apply alter_suspended.
  - destruct (tasks self !! id) as [t|] eqn:Ht; [|done].
    case_decide as Hpc; [|done]. injection Hstep as <-.
    eapply eff_spawn_failed; eauto. cbn. by apply alter_suspended.
  - destruct (tasks self !! id) as [t|] eqn:Ht; [|done].
    destruct (jobs self !! id) as [j|] eqn:Hj; [|done].
    case_decide as Hpc; [|done].
    destruct data as [l|].
    + destruct (handle_line l j) as [j' [x|]] eqn:E; injection Hstep as <-.
      * eapply eff_line_raised; eauto; rewrite ?E; cbn; try done.
        by apply alter_suspended.
      * eapply eff_line; eauto; by rewrite ?E.
    + injection Hstep as <-. eapply eff_eof; eauto. cbn. by apply alter_suspended.
  - destruct (tasks self !! id) as [t|] eqn:Ht; [|done].
    case_decide as Hpc; [|done]. injection Hstep as <-.
    eapply eff_read_failed; eauto. cbn. by apply alter_suspended.
  - destruct (jobs self !! id) as [j|] eqn:Hj; [|done].
    destruct (Job.live j) eqn:Hlive; [|done]. injection Hstep as <-.
    by eapply eff_exited.
  - destruct (tasks self !! id) as [t|] eqn:Ht; [|done].
    destruct (jobs self !! id) as [j|] eqn:Hj; [|done].
    destruct (bool_decide (at_pc t = Waiting)) eqn:Hpc; [|done].
    apply bool_decide_eq_true in Hpc.
    destruct (Job.live j) eqn:Hlive; [done|]. cbn [negb andb] in Hstep.
    injection Hstep as <-.
    destruct (finish_effect id now j t (release self) Ht) as (Hj' & Ht' & Hp').
    by eapply eff_waited.
Qed.

(** ** The job state machine *)

Lemma abort_job_status j : Job.status (abort_job j) = Status.aborted.
Proof. unfold abort_job. by case_match. Qed.

Lemma abort_job_live j : Job.live (abort_job j) = Job.live j.
Proof.
  unfold abort_job.
  destruct (Job.live (Job.set_status Status.aborted j)) eqn:E; [|done].
  unfold Job.live in *. cbn in *. by destruct (Job.process j).
Qed.

Lemma abort_job_process_None j : Job.process j = None → Job.process (abort_job j) = None.
Proof. intros H. unfold abort_job, Job.live. cbn. by rewrite H. Qed.

Lemma finish_job_status now j :
  Job.status (finish_job now j) =
  if decide (Job.status j = Status.running) then Status.finished else Job.status j.
Proof. unfold finish_job. by case_decide. Qed.

Lemma finish_job_process now j : Job.process (finish_job now j) = Job.process j.
Proof. unfold finish_job. by case_decide. Qed.

(** How the job registered under [id] is changed by one block. *)
Lemma effect_job self self' ev id j :
  effect self self' ev →
  jobs self !! id = Some j →
  ∃ j', jobs self' !! id = Some j'
    ∧ (j' = j
       ∨ (j' = abort_job j
          ∧ (Job.status j = Status.pending ∨ Job.status j = Status.running))
       ∨ (∃ now t, j' = finish_job now j ∧ ev = Acquired id now
                   ∧ tasks self !! id = Some t ∧ at_pc t = AtGate
                   ∧ Job.status j ≠ Status.pending)
       ∨ (∃ t, j' = Job.set_process (Some Process.spawn) j ∧ ev = Spawned id
               ∧ tasks self !! id = Some t ∧ at_pc t = Spawning)
       ∨ (∃ l t, j' = (handle_line l j).1 ∧ ev = Readline id (Some l)
                 ∧ tasks self !! id = Some t ∧ at_pc t = Reading)
       ∨ (∃ code, j' = Job.set_process (Process.exit code <$> Job.process j) j
                  ∧ Job.live j = true)
       ∨ (∃ now t, j' = finish_job now j ∧ ev = Waited id now
                   ∧ tasks self !! id = Some t ∧ at_pc t = Waiting
                   ∧ Job.live j = false)).
Proof.
  intros Heff Hj.
  destruct Heff as
    [ ev Hjobs _ _ _
    | sender tgt message e url who t Hnew Hjobs _ _ _
    | sender tgt message e id0 j0 Hj0 Hst Hjobs _ _
    | id0 now t j0 Ht Hj0 Hpc _ _ Hjobs _ _
    | id0 now t j0 Ht Hj0 Hpc _ Hst Hjobs _ _
    | id0 t j0 Ht Hj0 Hpc Hjobs _ _
    | id0 t Ht Hpc Hjobs _ _
    | id0 t j0 Ht Hj0 Hpc Hjobs _ _
    | id0 l t j0 Ht Hj0 Hpc _ Hjobs _ _
    | id0 l t j0 x Ht Hj0 Hpc _ Hjobs _ _
    | id0 t Ht Hpc Hjobs _ _
    | id0 code j0 Hj0 Hlive Hjobs _ _
    | id0 now t j0 Ht Hj0 Hpc Hlive Hjobs _ _ ];
    rewrite Hjobs;
    try (exists j; split; [exact Hj | by left]).
  - exists j. split; [|by left].
    rewrite lookup_insert_ne; [done|]. intros <-. congruence.
  - destruct (decide (id0 = id)) as [->|Hne].
    + rewrite lookup_insert_eq. assert (j0 = j) as -> by congruence.
      eexists. split; [done|]. right; left. done.
    + rewrite lookup_insert_ne by done. exists j. split; [done | by left].
  - destruct (decide (id0 = id)) as [->|Hne].
    + rewrite lookup_insert_eq. assert (j0 = j) as -> by congruence.
      eexists. split; [done|]. do 2 right; left. by exists now, t.
    + rewrite lookup_insert_ne by done. exists j. split; [done | by left].
  - destruct (decide (id0 = id)) as [->|Hne].
    + rewrite lookup_insert_eq. assert (j0 = j) as -> by congruence.
      eexists. split; [done|]. do 3 right; left. by exists t.
    + rewrite lookup_insert_ne by done. exists j. split; [done | by left].
  - destruct (decide (id0 = id)) as [->|Hne].
    + rewrite lookup_insert_eq. assert (j0 = j) as -> by congruence.
      eexists. split; [done|]. do 4 right; left. by exists l, t.
    + rewrite lookup_insert_ne by done. exists j. split; [done | by left].
  - destruct (decide (id0 = id)) as [->|Hne].
    + rewrite lookup_insert_eq. assert (j0 = j) as -> by congruence.
      eexists. split; [done|]. do 4 right; left. by exists l, t.
    + rewrite lookup_insert_ne by done. exists j. split; [done | by left].
  - destruct (decide (id0 = id)) as [->|Hne].
    + rewrite lookup_insert_eq. assert (j0 = j) as -> by congruence.
      eexists. split; [done|]. do 5 right; left. by exists code.
    + rewrite lookup_insert_ne by done. exists j. split; [done | by left].
  - destruct (decide (id0 = id)) as [->|Hne].
    + rewrite lookup_insert_eq. assert (j0 = j) as -> by congruence.
      eexists. split; [done|]. do 6 right. by exists now, t.
    + rewrite lookup_insert_ne by done. exists j. split; [done | by left].
Qed.

(** One block changes the status of a registered job along an edge of
    the state machine, or not at all. *)
Lemma step_status self self' ev id j :
  step self ev = Some self' →
  jobs self !! id = Some j →
  ∃ j', jobs self' !! id = Some j'
    ∧ (Job.status j' = Job.status j ∨ edge (Job.status j) (Job.status j')).
Proof.
  intros Hstep Hj.
  destruct (effect_job self self' ev id j (step_effect _ _ _ Hstep) Hj)
    as (j' & Hj' & Hchange).
  exists j'. split; [exact Hj'|].
  destruct Hchange as [->|[[-> Hst]|[(now & t & -> & _)|[(t & -> & _)
                      |[(l & t & -> & _)|[(code & -> & _)|(now & t & -> & _)]]]]]].
  - by left.
  - right. rewrite abort_job_status. unfold edge. destruct Hst as [-> | ->]; auto.
  - rewrite finish_job_status. case_decide as E; [|by left].
    right. unfold edge. rewrite E. auto.
  - by left.
  - rewrite handle_line_status. case_decide as E; [|by left].
    right. unfold edge. rewrite E. auto.
  - by left.
  - rewrite finish_job_status. case_decide as E; [|by left].
    right. unfold edge. rewrite E. auto.
Qed.

Lemma no_edge_from_terminal a b : terminal a → ¬ edge a b.
Proof.
  unfold edge, terminal. intros [-> | ->] [[? ?]|[[? ?]|[[? ?]|[? ?]]]]; discriminate.
Qed.

(** C1.  Whatever block of the event loop runs (an IRC event, the abort
    command included, or a resumption of a run loop), the status of every
    registered job stays as it is or moves along one of the edges
    pending -> running, running -> finished, running -> aborted,
    pending -> aborted; a status finished or aborted is never left. *)
Theorem status_follows_state_machine
    (self self' : Chromebot) (ev : event) (id : string) (j : Job.t)
    (Hstep : step self ev = Some self')
    (Hj : jobs self !! id = Some j) :
  ∃ j', jobs self' !! id = Some j'
    ∧ (Job.status j' = Job.status j ∨ edge (Job.status j) (Job.status j'))
    ∧ (terminal (Job.status j) → Job.status j' = Job.status j).
Proof.
  destruct (step_status self self' ev id j Hstep Hj) as (j' & Hj' & Hedge).
  exists j'. split; [exact Hj'|]. split; [exact Hedge|].
  intros Hterm. destruct Hedge as [|Hedge]; [done|].
  by destruct (no_edge_from_terminal _ _ Hterm Hedge).
Qed.

(** A corollary over whole runs: a terminal status is never left. *)
Lemma terminal_status_is_final evs : ∀ self self' id j,
  run self evs = Some self' →
  jobs self !! id = Some j →
  terminal (Job.status j) →
  ∃ j', jobs self' !! id = Some j' ∧ Job.status j' = Job.status j.
Proof.
  induction evs as [|ev evs IH]; intros self self' id j Hrun Hj Hterm; cbn in Hrun.
  - injection Hrun as <-. by exists j.
  - destruct (step self ev) as [self1|] eqn:Hstep; [|done].
    destruct (step_status self self1 ev id j Hstep Hj) as (j1 & Hj1 & Hedge).
    assert (Hsame : Job.status j1 = Job.status j).
    { destruct Hedge as [|Hedge]; [done|].
      by destruct (no_edge_from_terminal _ _ Hterm Hedge). }
    destruct (IH self1 self' id j1 Hrun Hj1) as (j' & Hj' & Hst); [by rewrite Hsame|].
    exists j'. split; [done | congruence].
Qed.

Lemma status_follows_state_machine_witness :
  ∃ j', jobs (after_run (evs_reading ++ [Readline "job-1" (Some (Decodes (PDict record_a1)))]))
          !! "job-1" = Some j'
    ∧ (Job.status j' = Status.pending ∨ edge Status.pending (Job.status j'))
    ∧ (terminal Status.pending → Job.status j' = Status.pending).
Proof.
  apply (status_follows_state_machine (after_run evs_reading) _
           (Readline "job-1" (Some (Decodes (PDict record_a1)))) "job-1"
           (Job.Build "job-1" ∅ ∅ 0 None "http://example.org" "alice" Status.pending
              (Some Process.spawn))).
  - vm_compute. reflexivity.
  - vm_compute. reflexivity.
Defined.

(** Processing a line leaves the job as [handle_line] leaves it. *)
Lemma effect_Readline_line self self' id l j :
  effect self self' (Readline id (Some l)) →
  jobs self !! id = Some j →
  jobs self' !! id = Some (handle_line l j).1.
Proof.
  intros Heff Hj.
  remember (Readline id (Some l)) as ev eqn:Hev.
  destruct Heff as
    [ ev _ _ _ Hnot | | | | | | |
    | id0 l0 t j0 Ht Hj0 Hpc _ Hjobs _ _
    | id0 l0 t j0 x Ht Hj0 Hpc _ Hjobs _ _ | | | ];
    try discriminate Hev.
  - by destruct (Hnot id (Some l)).
  - injection Hev as -> ->. rewrite Hjobs, lookup_insert_eq. congruence.
  - injection Hev as -> ->. rewrite Hjobs, lookup_insert_eq. congruence.
Qed.

(** C5 (as amended).  A pending job becomes running exactly when its
    run loop processes a line read from its worker; which line that is
    (a recognized record, another record, or text that does not decode)
    makes no difference. *)
Theorem running_upon_first_line
    (self self' : Chromebot) (ev : event) (id : string) (j j' : Job.t)
    (Hstep : step self ev = Some self')
    (Hj : jobs self !! id = Some j)
    (Hj' : jobs self' !! id = Some j')
    (Hpending : Job.status j = Status.pending) :
  Job.status j' = Status.running ↔ ∃ l, ev = Readline id (Some l).
Proof.
  pose proof (step_effect _ _ _ Hstep) as Heff.
  destruct (effect_job self self' ev id j Heff Hj) as (j1 & Hj1 & Hchange).
  assert (j1 = j') as -> by congruence.
  split.
  - intros Hrun.
    destruct Hchange as [->|[[-> Hst]|[(now & t & -> & _ & _ & _ & Hnp)|[(t & -> & _)
                        |[(l & t & -> & -> & _)|[(code & -> & _)|(now & t & -> & _)]]]]]].
    + congruence.
    + rewrite abort_job_status in Hrun. done.
    + done.
    + cbn in Hrun. congruence.
    + by exists l.
    + cbn in Hrun. congruence.
    + rewrite finish_job_status in Hrun. case_decide; congruence.
  - intros [l ->].
    rewrite (effect_Readline_line self self' id l j Heff Hj) in Hj'.
    injection Hj' as <-.
    rewrite handle_line_status. by rewrite decide_True.
Qed.

Lemma running_upon_first_line_witness :
  Job.status (Job.Build "job-1" ∅ ∅ 0 None "http://example.org" "alice" Status.running
                (Some Process.spawn)) = Status.running
  ↔ ∃ l, Readline "job-1" (Some (Decodes (PDict record_other))) = Readline "job-1" (Some l).
Proof.
  apply (running_upon_first_line (after_run evs_reading)
           (after_run (evs_reading ++ [Readline "job-1" (Some (Decodes (PDict record_other)))]))
           _ "job-1"
           (Job.Build "job-1" ∅ ∅ 0 None "http://example.org" "alice" Status.pending
              (Some Process.spawn))).
  - vm_compute. reflexivity.
  - vm_compute. reflexivity.
  - vm_compute. reflexivity.
  - reflexivity.
Defined.

(** C5, the claim as stated fails: the first line of a worker is a record
    of neither recognized kind, and the job is running after it. *)
Lemma running_upon_unrecognized_line :
  ¬ has_kind KindStats record_other
  ∧ ¬ has_kind KindRstats record_other
  ∧ Job.status <$> jobs (after_run evs_reading) !! "job-1" = Some Status.pending
  ∧ step (after_run evs_reading) (Readline "job-1" (Some (Decodes (PDict record_other))))
    = Some (after_run (evs_reading ++ [Readline "job-1" (Some (Decodes (PDict record_other)))]))
  ∧ Job.status <$>
      jobs (after_run (evs_reading ++ [Readline "job-1" (Some (Decodes (PDict record_other)))]))
        !! "job-1" = Some Status.running.
Proof.
  split; [vm_compute; discriminate|].
  split; [vm_compute; discriminate|].
  split; [vm_compute; reflexivity|].
  split; vm_compute; reflexivity.
Qed.

(** ** Aborting a queued job *)

Lemma finish_pc_cases now j : finish_pc now j = Returned ∨ ∃ x, finish_pc now j = Failed x.
Proof. unfold finish_pc. destruct (formatStatus (finish_job now j)); eauto. Qed.

(** How the coroutine of a registered job moves in one block. *)
Lemma effect_task self self' ev id t j :
  effect self self' ev →
  tasks self !! id = Some t →
  jobs self !! id = Some j →
  ∃ t', tasks self' !! id = Some t'
    ∧ (at_pc t' = at_pc t
       ∨ (at_pc t = AtGate ∧ Job.status j = Status.pending ∧ at_pc t' = Spawning)
       ∨ (at_pc t = AtGate ∧ Job.status j ≠ Status.pending
          ∧ ∃ now, at_pc t' = finish_pc now j)
       ∨ (at_pc t = Spawning ∧ (at_pc t' = Reading ∨ at_pc t' = Failed OSError))
       ∨ (at_pc t = Reading ∧ (at_pc t' = Waiting ∨ ∃ x, at_pc t' = Failed x))
       ∨ (at_pc t = Waiting ∧ ∃ now, at_pc t' = finish_pc now j)).
Proof.
  intros Heff Ht Hj.
  destruct Heff as
    [ ev _ Htasks _ _
    | sender tgt message e url who t0 Hnew _ Htasks _ _
    | sender tgt message e id0 j0 _ _ _ Htasks _
    | id0 now t0 j0 Ht0 Hj0 Hpc _ Hst _ Htasks _
    | id0 now t0 j0 Ht0 Hj0 Hpc _ Hst _ Htasks _
    | id0 t0 j0 Ht0 Hj0 Hpc _ Htasks _
    | id0 t0 Ht0 Hpc _ Htasks _
    | id0 t0 j0 Ht0 Hj0 Hpc _ Htasks _
    | id0 l t0 j0 Ht0 Hj0 Hpc _ _ Htasks _
    | id0 l t0 j0 x Ht0 Hj0 Hpc _ _ Htasks _
    | id0 t0 Ht0 Hpc _ Htasks _
    | id0 code j0 _ _ _ Htasks _
    | id0 now t0 j0 Ht0 Hj0 Hpc _ _ Htasks _ ];
    rewrite Htasks;
    try (exists t; split; [exact Ht | by left]);
    try (destruct (decide (id0 = id)) as [->|Hne];
         [ rewrite lookup_insert_eq; assert (t0 = t) as -> by congruence;
           try (assert (j0 = j) as -> by congruence);
           eexists; split; [reflexivity|]; cbn [at_pc suspended]
         | rewrite lookup_insert_ne by done; exists t; split; [exact Ht | by left] ]).
  - exists t. split; [|by left].
    rewrite lookup_insert_ne; [done|]. intros <-. congruence.
  - right; left. done.
  - do 2 right; left. split; [done|]. split; [done|]. by exists now.
  - do 3 right; left. auto.
  - do 3 right; left. auto.
  - do 4 right; left. auto.
  - do 4 right; left. split; [done|]. right. by exists x.
  - do 4 right; left. split; [done|]. right. by exists ValueError.
  - do 5 right. split; [done|]. by exists now.
Qed.

Lemma aborted_unspawned_step id self ev self' :
  aborted_unspawned id self → step self ev = Some self' → aborted_unspawned id self'.
Proof.
  intros (j & t & Hj & Hst & Hproc & Ht & Hout) Hstep.
  pose proof (step_effect _ _ _ Hstep) as Heff.
  destruct (effect_job _ _ _ _ _ Heff Hj) as (j' & Hj' & Hchange).
  destruct (effect_task _ _ _ _ _ _ Heff Ht Hj) as (t' & Ht' & Hmove).
  exists j', t'. split; [exact Hj'|].
  assert (Hj'eq : Job.status j' = Status.aborted ∧ Job.process j' = None).
  { destruct Hchange as [->|[[-> Hs]|[(now & t0 & -> & _)|[(t0 & -> & _ & Ht0 & Hpc)
                        |[(l & t0 & -> & _ & Ht0 & Hpc)|[(code & -> & Hlive)
                        |(now & t0 & -> & _ & Ht0 & Hpc & _)]]]]]].
    - done.
    - destruct Hs; congruence.
    - rewrite finish_job_status, finish_job_process. rewrite Hst. by case_decide.
    - assert (t0 = t) as -> by congruence.
      destruct Hout as [?|[?|[x ?]]]; congruence.
    - assert (t0 = t) as -> by congruence.
      destruct Hout as [?|[?|[x ?]]]; congruence.
    - unfold Job.live in Hlive. by rewrite Hproc in Hlive.
    - assert (t0 = t) as -> by congruence.
      destruct Hout as [?|[?|[x ?]]]; congruence. }
  destruct Hj'eq as [Hst' Hproc'].
  split; [exact Hst'|]. split; [exact Hproc'|]. split; [exact Ht'|].
  unfold outside_gate in *.
  destruct Hmove as [->|[(_ & Hp & _)|[(_ & _ & now & ->)|[(Hpc & _)|[(Hpc & _)|(Hpc & _)]]]]].
  - exact Hout.
  - congruence.
  - destruct (finish_pc_cases now j) as [->|[x ->]]; eauto.
  - destruct Hout as [?|[?|[x ?]]]; congruence.
  - destruct Hout as [?|[?|[x ?]]]; congruence.
  - destruct Hout as [?|[?|[x ?]]]; congruence.
Qed.

Lemma aborted_unspawned_run id evs : ∀ self self',
  aborted_unspawned id self → run self evs = Some self' → aborted_unspawned id self'.
Proof.
  induction evs as [|ev evs IH]; intros self self' Hinv Hrun; cbn in Hrun.
  - by injection Hrun as <-.
  - destruct (step self ev) as [self1|] eqn:Hstep; [|done].
    eapply IH; [|exact Hrun]. by eapply aborted_unspawned_step.
Qed.

(** The abort command of a privileged user on a registered job that is
    pending or running. *)
Lemma dispatch_abort self user ctx e id j :
  modes_of self user ∩ {[ NickMode.operator; NickMode.voice ]} ≠ ∅ →
  jobs self !! id = Some j →
  Job.status j = Status.pending ∨ Job.status j = Status.running →
  dispatch self user (NsAbort id) ctx e
  = Outcome (with_jobs (<[id := abort_job j]> (jobs self)) self) None.
Proof.
  intros Hpriv Hj Hst. cbn [dispatch]. unfold handleAbort, voice.
  rewrite decide_False by done. unfold jobExists. cbn [Namespace_id].
  rewrite Hj. by rewrite decide_True.
Qed.

(** C3.  A job is pending, its run loop still waits at the gate and no
    worker exists; a privileged user aborts it.  Then in every later state
    of the bot the job is aborted and has no process, and its run loop is
    still at the gate or has ended: it never enters the block that spawns
    the worker, and the job is never running or finished. *)
Theorem aborted_while_pending_never_spawns
    (self self' : Chromebot) (user : User.t) (ctx : ReplyContext) (e : env)
    (id : string) (j : Job.t) (t : Task) (evs : list event)
    (Hpriv : modes_of self user ∩ {[ NickMode.operator; NickMode.voice ]} ≠ ∅)
    (Hj : jobs self !! id = Some j)
    (Hpending : Job.status j = Status.pending)
    (Hproc : Job.process j = None)
    (Ht : tasks self !! id = Some t)
    (Hgate : at_pc t = AtGate)
    (Hrun : run (after (dispatch self user (NsAbort id) ctx e)) evs = Some self') :
  ∃ j' t',
    jobs self' !! id = Some j'
    ∧ Job.status j' = Status.aborted
    ∧ Job.process j' = None
    ∧ tasks self' !! id = Some t'
    ∧ (at_pc t' = AtGate ∨ at_pc t' = Returned ∨ ∃ x, at_pc t' = Failed x).
Proof.
  rewrite (dispatch_abort self user ctx e id j Hpriv Hj) in Hrun by auto.
  cbn [after] in Hrun.
  eapply (aborted_unspawned_run id evs); [|exact Hrun].
  exists (abort_job j), t. cbn.
  split; [apply lookup_insert_eq|].
  split; [apply abort_job_status|].
  split; [by apply abort_job_process_None|].
  split; [exact Ht|]. by left.
Qed.

Lemma aborted_while_pending_never_spawns_witness :
  ∃ j' t',
    jobs (after_run (evs_second_queued ++ abort "alice" "job-2" :: evs_first_ends))
      !! "job-2" = Some j'
    ∧ Job.status j' = Status.aborted
    ∧ Job.process j' = None
    ∧ tasks (after_run (evs_second_queued ++ abort "alice" "job-2" :: evs_first_ends))
        !! "job-2" = Some t'
    ∧ (at_pc t' = AtGate ∨ at_pc t' = Returned ∨ ∃ x, at_pc t' = Failed x).
Proof.
  apply (aborted_while_pending_never_spawns (after_run evs_second_queued) _
           (User.Build "alice" 1)
           {| target := "#crocoite"; user := User.Build "alice" 1 |}
           {| uuid := ""; now := 0 |}
           "job-2"
           (Job.Build "job-2" ∅ ∅ 0 None "http://example.com" "alice" Status.pending None)
           {| at_pc := AtGate;
              reply := {| target := "#crocoite"; user := User.Build "alice" 1 |} |}
           evs_first_ends).
  - refine (bool_decide_unpack _ _). vm_compute. exact I.
  - vm_compute. reflexivity.
  - reflexivity.
  - reflexivity.
  - vm_compute. reflexivity.
  - reflexivity.
  - vm_compute. reflexivity.
Defined.

(** ** The concurrency gate *)

Lemma size_holders_insert (m : gmap string Task) id t t' :
  m !! id = Some t →
  (size (filter (λ kt, holds_slot kt.2 = true) (<[id := t']> m)) + Nat.b2n (holds_slot t)
   = size (filter (λ kt, holds_slot kt.2 = true) m) + Nat.b2n (holds_slot t'))%nat.
Proof.
  intros Ht. rewrite map_filter_insert. cbn [snd].
  assert (Hlook : filter (λ kt : string * Task, holds_slot kt.2 = true) m !! id
                  = if holds_slot t then Some t else None).
  { destruct (holds_slot t) eqn:E.
    - by apply map_lookup_filter_Some.
    - apply map_lookup_filter_None. right. intros t0 Ht0. cbn.
      assert (t0 = t) as -> by congruence. congruence. }
  case_decide as Hin.
  - rewrite Hin, map_size_insert, Hlook. by destruct (holds_slot t); cbn; lia.
  - apply not_true_is_false in Hin.
    rewrite Hin, map_filter_delete, map_size_delete, Hlook.
    destruct (holds_slot t) eqn:E; cbn; [|lia].
    destruct (size (filter (λ kt : string * Task, holds_slot kt.2 = true) m)) eqn:Hsz;
      [|lia].
    apply map_size_empty_inv in Hsz. rewrite Hsz, lookup_empty in Hlook. done.
Qed.

Lemma size_holders_insert_new (m : gmap string Task) id t' :
  m !! id = None →
  holds_slot t' = false →
  size (filter (λ kt, holds_slot kt.2 = true) (<[id := t']> m))
  = size (filter (λ kt, holds_slot kt.2 = true) m).
Proof.
  intros Hnone Hout. rewrite map_filter_insert_False by (cbn; congruence).
  by rewrite delete_id.
Qed.

Lemma suspended_same t : suspended (at_pc t) t = t.
Proof. by destruct t. Qed.

(** One coroutine moves and its job changes: the invariant is kept when
    the semaphore follows the move and a living worker stays attached. *)
Lemma gate_invariant_update limit self self' id j jn t p :
  jobs self !! id = Some j →
  tasks self !! id = Some t →
  jobs self' = <[id := jn]> (jobs self) →
  tasks self' = <[id := suspended p t]> (tasks self) →
  (processLimit self' + Nat.b2n (inside_gate p)
   = processLimit self + Nat.b2n (holds_slot t))%nat →
  (Job.live jn = true → p = Reading ∨ p = Waiting) →
  gate_invariant limit self → gate_invariant limit self'.
Proof.
  intros Hj Ht Hjobs Htasks Hsem Hlive (I1 & I2 & I3).
  split; [|split].
  - unfold holders in *. rewrite Htasks.
    pose proof (size_holders_insert (tasks self) id t (suspended p t) Ht) as Hsz.
    change (holds_slot (suspended p t)) with (inside_gate p) in Hsz. lia.
  - intros id'. rewrite Hjobs, Htasks.
    destruct (decide (id = id')) as [->|Hne].
    + rewrite !lookup_insert_eq. split; eauto.
    + rewrite !lookup_insert_ne by done. apply I2.
  - intros id' j'. rewrite Hjobs, Htasks.
    destruct (decide (id = id')) as [->|Hne].
    + rewrite !lookup_insert_eq. intros [= <-] Hl. eexists. split; [done|]. by apply Hlive.
    + rewrite !lookup_insert_ne by done. apply I3.
Qed.

Lemma not_live_outside limit self id j t :
  gate_invariant limit self →
  jobs self !! id = Some j →
  tasks self !! id = Some t →
  at_pc t ≠ Reading → at_pc t ≠ Waiting →
  Job.live j = false.
Proof.
  intros (_ & _ & I3) Hj Ht H1 H2.
  destruct (Job.live j) eqn:E; [|done].
  destruct (I3 id j Hj E) as (t0 & Ht0 & [?|?]); congruence.
Qed.

Lemma handle_line_object_ok data j : (handle_line (Decodes (PDict data)) j).2 = None.
Proof. unfold handle_line. cbn [json_loads]. by repeat case_match. Qed.

Lemma handle_line_live l j : Job.live (handle_line l j).1 = Job.live j.
Proof. unfold Job.live. by rewrite handle_line_process. Qed.

Lemma finish_job_live now j : Job.live (finish_job now j) = Job.live j.
Proof. unfold Job.live. by rewrite finish_job_process. Qed.

Lemma finish_pc_outside now j : inside_gate (finish_pc now j) = false.
Proof. by destruct (finish_pc_cases now j) as [->|[x ->]]. Qed.

Lemma exited_not_live code j :
  Job.live (Job.set_process (Process.exit code <$> Job.process j) j) = false.
Proof. unfold Job.live. cbn. by destruct (Job.process j). Qed.

Lemma gate_invariant_effect limit self self' ev :
  gate_invariant limit self →
  effect self self' ev →
  object_line ev = true →
  gate_invariant limit self'.
Proof.
  intros Hinv Heff Hobj.
  destruct Heff as
    [ ev Hjobs Htasks Hsem _
    | sender tgt message e url who t Hnew Hjobs Htasks Hpc Hsem
    | sender tgt message e id j Hj Hst Hjobs Htasks Hsem
    | id now t j Ht Hj Hpc Hfree Hst Hjobs Htasks Hsem
    | id now t j Ht Hj Hpc Hfree Hst Hjobs Htasks Hsem
    | id t j Ht Hj Hpc Hjobs Htasks Hsem
    | id t Ht Hpc Hjobs Htasks Hsem
    | id t j Ht Hj Hpc Hjobs Htasks Hsem
    | id l t j Ht Hj Hpc Hok Hjobs Htasks Hsem
    | id l t j x Ht Hj Hpc Hraised Hjobs Htasks Hsem
    | id t Ht Hpc Hjobs Htasks Hsem
    | id code j Hj Hlive Hjobs Htasks Hsem
    | id now t j Ht Hj Hpc Hlive Hjobs Htasks Hsem ].
  - destruct Hinv as (I1 & I2 & I3). unfold gate_invariant, holders.
    by rewrite Hjobs, Htasks, Hsem.
  - destruct Hinv as (I1 & I2 & I3).
    assert (Hnot : tasks self !! uuid e = None).
    { destruct (tasks self !! uuid e) eqn:E; [|done].
      destruct (proj1 (I2 (uuid e))) as [j Hj]; [by eexists | congruence]. }
    split; [|split].
    + unfold holders. rewrite Htasks, Hsem, size_holders_insert_new; [done..|].
      unfold holds_slot. by rewrite Hpc.
    + intros id. rewrite Hjobs, Htasks.
      destruct (decide (uuid e = id)) as [->|Hne].
      * rewrite !lookup_insert_eq. split; eauto.
      * rewrite !lookup_insert_ne by done. apply I2.
    + intros id j. rewrite Hjobs, Htasks.
      destruct (decide (uuid e = id)) as [->|Hne].
      * rewrite !lookup_insert_eq. by intros [= <-] Hl.
      * rewrite !lookup_insert_ne by done. apply I3.
  - destruct (proj2 (proj1 (proj2 Hinv) id)) as [t Ht]; [by eexists|].
    apply (gate_invariant_update limit self self' id j (abort_job j) t (at_pc t));
      [ exact Hj | exact Ht | exact Hjobs
      | by rewrite Htasks, suspended_same, insert_id
      | unfold holds_slot; lia | | exact Hinv ].
    rewrite abort_job_live. intros Hl.
    destruct (proj2 (proj2 Hinv) id j Hj Hl) as (t0 & Ht0 & Hrw). congruence.
  - apply (gate_invariant_update limit self self' id j j t Spawning);
      [ exact Hj | exact Ht | by rewrite Hjobs, insert_id | exact Htasks
      | unfold holds_slot; rewrite Hpc, Hsem; cbn; lia | | exact Hinv ].
    intros Hl. rewrite (not_live_outside limit self id j t) in Hl; try done; congruence.
  - apply (gate_invariant_update limit self self' id j (finish_job now j) t
             (finish_pc now j));
      [ exact Hj | exact Ht | exact Hjobs | exact Htasks
      | unfold holds_slot; by rewrite Hpc, Hsem, finish_pc_outside | | exact Hinv ].
    rewrite finish_job_live. intros Hl.
    rewrite (not_live_outside limit self id j t) in Hl; try done; congruence.
  - apply (gate_invariant_update limit self self' id j
             (Job.set_process (Some Process.spawn) j) t Reading);
      [ exact Hj | exact Ht | exact Hjobs | exact Htasks
      | unfold holds_slot; by rewrite Hpc, Hsem | auto | exact Hinv ].
  - destruct (proj1 (proj1 (proj2 Hinv) id)) as [j Hj]; [by eexists|].
    apply (gate_invariant_update limit self self' id j j t (Failed OSError));
      [ exact Hj | exact Ht | by rewrite Hjobs, insert_id | exact Htasks
      | unfold holds_slot; rewrite Hpc, Hsem; cbn; lia | | exact Hinv ].
    intros Hl. rewrite (not_live_outside limit self id j t) in Hl; try done; congruence.
  - apply (gate_invariant_update limit self self' id j j t Waiting);
      [ exact Hj | exact Ht | by rewrite Hjobs, insert_id | exact Htasks
      | unfold holds_slot; by rewrite Hpc, Hsem | auto | exact Hinv ].
  - apply (gate_invariant_update limit self self' id j (handle_line l j).1 t Reading);
      [ exact Hj | exact Ht | exact Hjobs
      | by rewrite Htasks, <- Hpc, suspended_same, insert_id
      | unfold holds_slot; by rewrite Hpc, Hsem | auto | exact Hinv ].
  - exfalso. cbn in Hobj. destruct l as [|[| | | | | |data]]; try done.
    by rewrite handle_line_object_ok in Hraised.
  - done.
  - destruct (proj2 (proj2 Hinv) id j Hj Hlive) as (t & Ht & Hrw).
    apply (gate_invariant_update limit self self' id j
             (Job.set_process (Process.exit code <$> Job.process j) j) t (at_pc t));
      [ exact Hj | exact Ht | exact Hjobs
      | by rewrite Htasks, suspended_same, insert_id
      | unfold holds_slot; lia | by rewrite exited_not_live | exact Hinv ].
  - apply (gate_invariant_update limit self self' id j (finish_job now j) t
             (finish_pc now j));
      [ exact Hj | exact Ht | exact Hjobs | exact Htasks
      | unfold holds_slot; rewrite Hpc, Hsem, finish_pc_outside; cbn; lia
      | | exact Hinv ].
    rewrite finish_job_live. congruence.
Qed.

Lemma gate_invariant_init who chans limit parse_args :
  gate_invariant limit (Chromebot_init who chans limit parse_args).
Proof.
  split; [|split].
  - unfold holders. cbn. rewrite map_filter_empty, map_size_empty. lia.
  - intros id. cbn. by rewrite !lookup_empty.
  - intros id j. cbn. by rewrite lookup_empty.
Qed.

Lemma gate_invariant_run limit evs : ∀ self self',
  gate_invariant limit self →
  forallb object_line evs = true →
  run self evs = Some self' →
  gate_invariant limit self'.
Proof.
  induction evs as [|ev evs IH]; intros self self' Hinv Hobj Hrun; cbn in Hrun.
  - by injection Hrun as <-.
  - cbn in Hobj. apply andb_prop in Hobj as [Hev Hobj].
    destruct (step self ev) as [self1|] eqn:Hstep; [|done].
    eapply IH; [|exact Hobj|exact Hrun].
    eapply gate_invariant_effect; [exact Hinv | by apply step_effect | exact Hev].
Qed.

(** Under the invariant the running jobs with a living worker are among
    the holders of a slot. *)
Lemma running_live_bounded limit self :
  gate_invariant limit self → (size (running_live self) ≤ limit)%nat.
Proof.
  intros (I1 & I2 & I3).
  assert (Hsub : dom (running_live self) ⊆ dom (holders self)).
  { intros id. rewrite !elem_of_dom. intros [j Hj].
    apply map_lookup_filter_Some in Hj as (Hj & _ & Hlive). cbn in Hlive.
    destruct (I3 id j Hj Hlive) as (t & Ht & Hpc).
    exists t. apply map_lookup_filter_Some. split; [done|].
    cbn. unfold holds_slot. by destruct Hpc as [-> | ->]. }
  apply subseteq_size in Hsub. rewrite !size_dom in Hsub. lia.
Qed.

(** C2 (as amended).  A bot started with [limit] slots and any parser,
    any sequence of blocks of the event loop (so any interleaving of archive commands,
    aborts and worker events) in which every line read from a worker
    decodes to a JSON object: at most [limit] jobs are running with a
    living worker.  The free slots and the run loops inside the gate
    always add up to [limit], and a worker lives only while its run loop
    is inside the gate, reading from it or waiting for its exit. *)
Theorem running_workers_bounded
    (who : string) (chans : list string) (limit : nat)
    (parse_args : list string → parsed) (evs : list event) (self : Chromebot)
    (Hlines : forallb object_line evs = true)
    (Hrun : run (Chromebot_init who chans limit parse_args) evs = Some self) :
  (size (running_live self) ≤ limit)%nat
  ∧ (processLimit self + size (holders self) = limit)%nat
  ∧ ∀ id j, jobs self !! id = Some j → Job.live j = true →
      ∃ t, tasks self !! id = Some t ∧ (at_pc t = Reading ∨ at_pc t = Waiting).
Proof.
  assert (Hinv : gate_invariant limit self).
  { eapply gate_invariant_run; [apply gate_invariant_init | exact Hlines | exact Hrun]. }
  split; [by apply running_live_bounded|].
  destruct Hinv as (I1 & _ & I3). by split.
Qed.

Lemma running_workers_bounded_witness :
  (size (running_live (after_run (evs_reading
            ++ [Readline "job-1" (Some (Decodes (PDict record_a1)))]))) ≤ 1)%nat
  ∧ (processLimit (after_run (evs_reading
            ++ [Readline "job-1" (Some (Decodes (PDict record_a1)))]))
     + size (holders (after_run (evs_reading
            ++ [Readline "job-1" (Some (Decodes (PDict record_a1)))]))) = 1)%nat
  ∧ ∀ id j,
      jobs (after_run (evs_reading
            ++ [Readline "job-1" (Some (Decodes (PDict record_a1)))])) !! id = Some j →
      Job.live j = true →
      ∃ t, tasks (after_run (evs_reading
            ++ [Readline "job-1" (Some (Decodes (PDict record_a1)))])) !! id = Some t
           ∧ (at_pc t = Reading ∨ at_pc t = Waiting).
Proof.
  apply (running_workers_bounded "chromebot" ["#crocoite"] 1 (getParser "chromebot")
           (evs_reading ++ [Readline "job-1" (Some (Decodes (PDict record_a1)))])).
  - reflexivity.
  - vm_compute. reflexivity.
Defined.

(** C2, the claim as stated fails.  With one slot: the worker of job-1
    writes a line that is not JSON; the job is already running when
    [json.loads] raises, the exception leaves the [async with] block and
    frees the slot while the worker lives; job-2 takes the slot, and two
    jobs are running with a living worker. *)
Lemma two_running_with_one_slot :
  processLimit bot0 = 1%nat
  ∧ run bot0 evs_two_running = Some (after_run evs_two_running)
  ∧ size (running_live (after_run evs_two_running)) = 2%nat.
Proof.
  split; [reflexivity|]. split; vm_compute; reflexivity.
Qed.

(** ** The privilege check *)

Lemma no_privilege self user :
  NickMode.operator ∉ modes_of self user →
  NickMode.voice ∉ modes_of self user →
  modes_of self user ∩ {[ NickMode.operator; NickMode.voice ]} = ∅.
Proof.
  intros Hop Hv. apply set_eq. intros m.
  rewrite elem_of_intersection, elem_of_union, !elem_of_singleton, elem_of_empty.
  split; [|done]. intros [Hm [-> | ->]]; done.
Qed.

(** C7 (as amended).  The sender's [User] record carries neither
    operator nor voice.  Then the archive and the abort command are
    answered by the refusal, sent to the channel and the name of the
    reply context, and nothing else happens: the registry, the run loops
    and the semaphore are as before (no job is created, no status
    changes).  The status command for a registered job whose [bytesRcv]
    counter [prettyBytes] can format is not refused: exactly one message
    is sent, the status line of the job with its url, id, status and
    counters, and nothing else changes.  A job that has no [bytesRcv]
    counter is such a job: the line then says "0.0 B". *)
Theorem voice_required_for_archive_and_abort
    (self : Chromebot) (u : User.t) (ctx : ReplyContext) (e : env)
    (Hop : NickMode.operator ∉ modes_of self u)
    (Hvoice : NickMode.voice ∉ modes_of self u) :
  (∀ url recursive concurrency,
      dispatch self u (NsArchive url recursive concurrency) ctx e
      = Outcome (send ctx MustHaveVoice self) None)
  ∧ (∀ id, dispatch self u (NsAbort id) ctx e
           = Outcome (send ctx MustHaveVoice self) None)
  ∧ sent (send ctx MustHaveVoice self)
    = sent self ++ [{| msg_target := target ctx; msg_to := User.name (user ctx);
                       msg_text := MustHaveVoice |}]
  ∧ jobs (send ctx MustHaveVoice self) = jobs self
  ∧ tasks (send ctx MustHaveVoice self) = tasks self
  ∧ processLimit (send ctx MustHaveVoice self) = processLimit self
  ∧ (∀ id j received,
       jobs self !! id = Some j →
       prettyBytes (dict_get (Job.stats j) "bytesRcv" (PInt 0)) = Ok received →
       ∃ self',
         dispatch self u (NsStatus id) ctx e = Outcome self' None
         ∧ sent self'
           = sent self
             ++ [{| msg_target := target ctx; msg_to := User.name (user ctx);
                    msg_text :=
                      StatusLine (Job.url j) (Job.id j) (Status.name (Job.status j))
                        (dict_get (Job.rstats j) "have" (PInt 0))
                        (dict_get (Job.rstats j) "pending" (PInt 0))
                        (dict_get (Job.stats j) "crashed" (PInt 0))
                        (dict_get (Job.stats j) "requests" (PInt 0))
                        (dict_get (Job.stats j) "failed" (PInt 0))
                        received |}]
         ∧ jobs self' = jobs self
         ∧ tasks self' = tasks self
         ∧ processLimit self' = processLimit self)
  ∧ (∀ j, Job.stats j !! "bytesRcv" = None →
       prettyBytes (dict_get (Job.stats j) "bytesRcv" (PInt 0)) = Ok "0.0 B").
Proof.
  pose proof (no_privilege self u Hop Hvoice) as Hnone.
  split; [|split; [|split; [|split; [|split; [|split; [|split]]]]]]; try reflexivity.
  - intros url recursive concurrency. cbn [dispatch]. unfold handleArchive, voice.
    by rewrite decide_True.
  - intros id. cbn [dispatch]. unfold handleAbort, voice. by rewrite decide_True.
  - intros id j received Hj Hbytes. cbn [dispatch]. unfold handleStatus, jobExists.
    cbn [Namespace_id]. rewrite Hj. unfold formatStatus. rewrite Hbytes.
    eexists. split; [reflexivity|]. by repeat split.
  - intros j Hnone'. unfold dict_get. rewrite Hnone'. reflexivity.
Qed.

Lemma voice_required_for_archive_and_abort_witness :
  dispatch (after_run evs_running) bob (NsAbort "job-1") to_bob env0
  = Outcome (send to_bob MustHaveVoice (after_run evs_running)) None
  ∧ ∃ self',
      dispatch (after_run evs_running) bob (NsStatus "job-1") to_bob env0
      = Outcome self' None
      ∧ sent self'
        = sent (after_run evs_running)
          ++ [{| msg_target := target to_bob; msg_to := User.name (user to_bob);
                 msg_text :=
                   StatusLine (Job.url job1_running) (Job.id job1_running)
                     (Status.name (Job.status job1_running))
                     (dict_get (Job.rstats job1_running) "have" (PInt 0))
                     (dict_get (Job.rstats job1_running) "pending" (PInt 0))
                     (dict_get (Job.stats job1_running) "crashed" (PInt 0))
                     (dict_get (Job.stats job1_running) "requests" (PInt 0))
                     (dict_get (Job.stats job1_running) "failed" (PInt 0))
                     "0.0 B" |}]
      ∧ jobs self' = jobs (after_run evs_running)
      ∧ tasks self' = tasks (after_run evs_running)
      ∧ processLimit self' = processLimit (after_run evs_running).
Proof.
  destruct (voice_required_for_archive_and_abort (after_run evs_running) bob to_bob env0)
    as (_ & Habort & _ & _ & _ & _ & Hstatus & _).
  - refine (bool_decide_unpack _ _). vm_compute. exact I.
  - refine (bool_decide_unpack _ _). vm_compute. exact I.
  - split; [exact (Habort "job-1")|].
    apply (Hstatus "job-1" job1_running "0.0 B").
    + vm_compute. reflexivity.
    + vm_compute. reflexivity.
Defined.

(** C7, the claim as stated fails for a registered job whose worker
    reported a [bytesRcv] that is not a number: the status command of a
    user without operator and voice ends with [TypeError] and nothing is
    sent. *)
Lemma status_of_registered_job_fails :
  Job.id <$> jobs (after_run (evs_reading
                     ++ [Readline "job-1" (Some (Decodes (PDict record_bad)))])) !! "job-1"
  = Some "job-1"
  ∧ modes_of (after_run (evs_reading
                ++ [Readline "job-1" (Some (Decodes (PDict record_bad)))])) bob = ∅
  ∧ onMessage "bob" "#crocoite" "chromebot: s job-1" env0
      (after_run (evs_reading ++ [Readline "job-1" (Some (Decodes (PDict record_bad)))]))
    = Outcome (after_run (evs_reading
                 ++ [Readline "job-1" (Some (Decodes (PDict record_bad)))]))
        (Some TypeError).
Proof. split; [|split]; vm_compute; reflexivity. Qed.

(** ** Command lines that name no sub-command *)

(** A parse failure is answered with the error and the usage; the
    handler returns normally. *)
Lemma parse_failure_is_replied self sender tgt message e error usage :
  tgt ∈ channels self →
  String.prefix (nick self) message = true →
  parser self (tail (split_space message)) = ParserError error usage →
  ∃ ctx, onMessage sender tgt message e self
         = Outcome (send ctx (ParseFailure error usage) (users_at tgt self).1) None.
Proof.
  intros Hin Hpre Hparse. unfold onMessage.
  rewrite bool_decide_eq_true_2, Hpre by done. cbn [andb].
  pose proof (users_at_parser tgt self) as Hp.
  destruct (users_at tgt self) as [self1 members1]. cbn [fst] in *.
  rewrite Hp, Hparse. by eexists.
Qed.

(** The reply "Sorry, I don't understand" is never sent: the test that
    guards it, [not args], is false for every namespace. *)
Lemma not_understood_never_sent self sender tgt message e m command :
  m ∈ sent (after (onMessage sender tgt message e self)) →
  msg_text m = NotUnderstood command →
  m ∈ sent self.
Proof.
  unfold onMessage.
  destruct (bool_decide (tgt ∈ channels self) && String.prefix (nick self) message);
    [|done].
  assert (Hsent : sent (users_at tgt self).1 = sent self).
  { unfold users_at. by destruct (users self !! tgt). }
  destruct (users_at tgt self) as [self1 members1]. cbn [fst] in Hsent.
  rewrite <- Hsent. clear Hsent.
  set (user := default (User_init sender) (members1 !! sender)).
  set (ctx := {| target := tgt; user := user |}).
  destruct (parser self1 (tail (split_space message))) as [args|err usage].
  - unfold Namespace_bool. cbn [negb].
    destruct args as [|url recursive concurrency|id|id]; cbn [dispatch].
    + done.
    + unfold handleArchive, voice, handleArchive_body.
      repeat case_decide; cbn; rewrite ?elem_of_app, ?list_elem_of_singleton;
        intros Hm Htext; try done; destruct Hm as [ | -> ]; done.
    + unfold handleStatus, jobExists. cbn [Namespace_id].
      destruct (jobs self1 !! id) as [j|]; [unfold formatStatus; destruct (prettyBytes _)|];
        cbn; rewrite ?elem_of_app, ?list_elem_of_singleton;
        intros Hm Htext; try done; destruct Hm as [ | -> ]; done.
    + unfold handleAbort, voice, jobExists. cbn [Namespace_id].
      case_decide; [|destruct (jobs self1 !! id) as [j|]; [case_decide|]];
        cbn; rewrite ?elem_of_app, ?list_elem_of_singleton;
        intros Hm Htext; try done; destruct Hm as [ | -> ]; done.
  - cbn. rewrite elem_of_app, list_elem_of_singleton. intros [ | -> ] Htext; done.
Qed.

(** C8, the failing input.  The line is the bot's name and nothing else:
    the command is empty, argparse returns an empty namespace, which is
    true, so the "could not understand" branch is skipped and [args.func]
    raises [AttributeError]; nothing is sent to the sender. *)
Theorem bare_nick_is_not_answered :
  tail (split_space "chromebot") = []
  ∧ parser bot0 [] = Parsed NsEmpty
  ∧ raised (onMessage "alice" "#crocoite" "chromebot" {| uuid := "u"; now := 0 |} bot0)
    = Some AttributeError
  ∧ sent (after (onMessage "alice" "#crocoite" "chromebot" {| uuid := "u"; now := 0 |} bot0))
    = [].
Proof. split; [|split; [|split]]; vm_compute; reflexivity. Qed.

(** ** Mode changes *)

Lemma users_at_default channel self c :
  default ∅ (users (users_at channel self).1 !! c) = default ∅ (users self !! c).
Proof.
  unfold users_at. destruct (users self !! channel) eqn:E; [done|]. cbn.
  destruct (decide (channel = c)) as [->|Hne].
  - by rewrite lookup_insert_eq, E.
  - by rewrite lookup_insert_ne.
Qed.

(** [onMode] never adds a [User] to a membership map and never removes
    one: the records (name and reference to the set of modes) stay; what
    changes is the content of the sets. *)
Lemma onMode_keeps_records channel modes params self c :
  default ∅ (users (onMode channel modes params self) !! c) = default ∅ (users self !! c).
Proof.
  unfold onMode. case_decide as Hc; [clear Hc|done].
  generalize (zip (parseMode modes) params). intros items.
  revert self. induction items as [|[[action mode] who] items IH]; intros self; [done|].
  cbn [foldl]. rewrite IH. unfold onMode_apply.
  destruct (NickMode.fromMode mode) as [m|]; [|done].
  pose proof (users_at_default channel self c) as Hu.
  destruct (users_at channel self) as [self1 members1]. cbn [fst] in Hu.
  rewrite <- Hu. by repeat case_decide.
Qed.

(** C10, the failing input.  alice joins (her [User] is built with the
    default set of modes); then voice is given to ghost, a nick absent
    from the channel.  ghost is not entered, but the mode is added to the
    default set, which alice's record shares: the membership map now
    shows alice with voice, and her archive command passes the privilege
    check that refused it before. *)
Theorem mode_for_absent_nick_reaches_members :
  members (onJoin "alice" "#crocoite" bot0) "#crocoite" = {[ "alice" := ("alice", ∅) ]}
  ∧ members (onMode "#crocoite" "+v" ["ghost"] (onJoin "alice" "#crocoite" bot0)) "#crocoite"
    = {[ "alice" := ("alice", {[ NickMode.voice ]}) ]}
  ∧ msg_text <$> sent (after (onMessage "alice" "#crocoite" "chromebot: a http://example.org"
                               {| uuid := "job-1"; now := 0 |}
                               (onJoin "alice" "#crocoite" bot0)))
    = [MustHaveVoice]
  ∧ msg_text <$> sent (after (onMessage "alice" "#crocoite" "chromebot: a http://example.org"
                               {| uuid := "job-1"; now := 0 |}
                               (onMode "#crocoite" "+v" ["ghost"]
                                  (onJoin "alice" "#crocoite" bot0))))
    = [Queued "http://example.org" "job-1" "0" 1].
Proof. split; [|split; [|split]]; vm_compute; reflexivity. Qed.


(** * Further properties of the code *)

(** ** [prettyTimeDelta] *)




(** ** [prettyBytes] and the status line *)

(** X2.  A byte count below 1024 is shown as it is, with ".0 B". *)
Theorem prettyBytes_below_1024 (b : Z) (Hb : 0 <= b < 1024) :
  prettyBytes (PInt b) = Ok (decimal b +:+ ".0 B").
Proof.
  assert (Hall : forallb (λ n, match prettyBytes (PInt (Z.of_nat n)) with
                               | Ok s => String.eqb s (decimal (Z.of_nat n) +:+ ".0 B")
                               | Raise _ => false
                               end) (seq 0 1024) = true) by (vm_compute; reflexivity).
  rewrite forallb_forall in Hall.
  specialize (Hall (Z.to_nat b)).
  rewrite Z2Nat.id in Hall by lia.
  destruct (prettyBytes (PInt b)) as [s|x].
  - f_equal. apply String.eqb_eq, Hall, in_seq. lia.
  - exfalso. assert (false = true); [|done]. apply Hall, in_seq. lia.
Qed.

Lemma prettyBytes_below_1024_witness : prettyBytes (PInt 1023) = Ok (decimal 1023 +:+ ".0 B").
Proof. apply prettyBytes_below_1024. lia. Defined.

Lemma prettyBytes_not_a_number v : not_a_number v → prettyBytes v = Raise TypeError.
Proof. by destruct v. Qed.

(** X3.  When the [bytesRcv] counter a worker reported is not a number
    (null, a string, a list, an object), [formatStatus] raises
    [TypeError]: a status query for the job, by whatever user, sends no
    reply and changes nothing. *)
Theorem status_of_ill_typed_counter_raises
    (self : Chromebot) (user : User.t) (ctx : ReplyContext) (e : env)
    (id : string) (j : Job.t) (v : pyobj)
    (Hj : jobs self !! id = Some j)
    (Hv : Job.stats j !! "bytesRcv" = Some v)
    (Hbad : not_a_number v) :
  formatStatus j = Raise TypeError
  ∧ dispatch self user (NsStatus id) ctx e = Outcome self (Some TypeError).
Proof.
  assert (Hf : formatStatus j = Raise TypeError).
  { unfold formatStatus, dict_get. rewrite Hv.
    by rewrite (prettyBytes_not_a_number v Hbad). }
  split; [exact Hf|].
  cbn [dispatch]. unfold handleStatus, jobExists. cbn [Namespace_id].
  by rewrite Hj, Hf.
Qed.

Lemma status_of_ill_typed_counter_raises_witness :
  formatStatus (Job.Build "job-1" record_bad ∅ 0 None "http://example.org" "alice"
                  Status.running (Some Process.spawn)) = Raise TypeError
  ∧ dispatch (after_run (evs_reading ++ [Readline "job-1" (Some (Decodes (PDict record_bad)))]))
      bob (NsStatus "job-1") to_bob env0
    = Outcome (after_run (evs_reading ++ [Readline "job-1" (Some (Decodes (PDict record_bad)))]))
        (Some TypeError).
Proof.
  apply (status_of_ill_typed_counter_raises _ bob to_bob env0 "job-1" _ (PStr "many")).
  - vm_compute. reflexivity.
  - vm_compute. reflexivity.
  - exact I.
Defined.

Lemma handle_line_stats data j :
  has_kind KindStats data →
  (handle_line (Decodes (PDict data)) j).1
  = Job.set_stats data (if decide (Job.status j = Status.pending)
                        then Job.set_status Status.running j else j).
Proof.
  unfold has_kind, handle_line. intros Hk. cbn [json_loads kind_uuid] in *.
  unfold dict_get. rewrite Hk.
  replace (eq_str (PStr uuid_stats) uuid_stats) with true
    by (symmetry; by apply eq_str_true).
  reflexivity.
Qed.

(** X4.  A pending job's worker writes its first stats record, whose
    [bytesRcv] can be formatted: a status query right after it, by
    whatever user, is answered with status running, the counters of that
    record (0 for the ones it lacks) and the job's recursion counters. *)
Theorem status_shows_streamed_counters
    (self self' : Chromebot) (user : User.t) (ctx : ReplyContext) (e : env)
    (id : string) (j : Job.t) (data : gmap string pyobj) (received : string)
    (Hj : jobs self !! id = Some j)
    (Hpending : Job.status j = Status.pending)
    (Hkind : has_kind KindStats data)
    (Hbytes : prettyBytes (dict_get data "bytesRcv" (PInt 0)) = Ok received)
    (Hstep : step self (Readline id (Some (Decodes (PDict data)))) = Some self') :
  dispatch self' user (NsStatus id) ctx e
  = Outcome (send ctx (StatusLine (Job.url j) (Job.id j) "running"
                         (dict_get (Job.rstats j) "have" (PInt 0))
                         (dict_get (Job.rstats j) "pending" (PInt 0))
                         (dict_get data "crashed" (PInt 0))
                         (dict_get data "requests" (PInt 0))
                         (dict_get data "failed" (PInt 0))
                         received) self') None.
Proof.
  pose proof (effect_Readline_line _ _ _ _ _ (step_effect _ _ _ Hstep) Hj) as Hj'.
  rewrite (handle_line_stats data j Hkind), decide_True in Hj' by done.
  cbn [dispatch]. unfold handleStatus, jobExists. cbn [Namespace_id].
  rewrite Hj'. unfold formatStatus. cbn [Job.stats Job.set_stats Job.rstats Job.url
    Job.id Job.status Job.set_status]. rewrite Hbytes. reflexivity.
Qed.

Lemma status_shows_streamed_counters_witness :
  dispatch (after_run (evs_reading ++ [Readline "job-1" (Some (Decodes (PDict record_full)))]))
    bob (NsStatus "job-1") to_bob env0
  = Outcome (send to_bob (StatusLine (Job.url job1_pending) (Job.id job1_pending) "running"
                            (dict_get (Job.rstats job1_pending) "have" (PInt 0))
                            (dict_get (Job.rstats job1_pending) "pending" (PInt 0))
                            (dict_get record_full "crashed" (PInt 0))
                            (dict_get record_full "requests" (PInt 0))
                            (dict_get record_full "failed" (PInt 0))
                            "1.5 KiB")
               (after_run (evs_reading
                           ++ [Readline "job-1" (Some (Decodes (PDict record_full)))]))) None.
Proof.
  apply (status_shows_streamed_counters (after_run evs_reading) _ bob to_bob env0 "job-1"
           job1_pending record_full "1.5 KiB").
  - vm_compute. reflexivity.
  - reflexivity.
  - reflexivity.
  - vm_compute. reflexivity.
  - vm_compute. reflexivity.
Defined.

(** ** The commands *)

Lemma privileged self user :
  NickMode.operator ∈ modes_of self user ∨ NickMode.voice ∈ modes_of self user →
  modes_of self user ∩ {[ NickMode.operator; NickMode.voice ]} ≠ ∅.
Proof.
  intros Hp Hempty.
  assert (Hin : ∀ m, m ∈ modes_of self user →
                     m ∈ ({[ NickMode.operator; NickMode.voice ]} : gset NickMode.t) →
                     False).
  { intros m H1 H2. apply (not_elem_of_empty (C:=gset NickMode.t) m).
    rewrite <- Hempty. by apply elem_of_intersection. }
  destruct Hp as [Hp|Hp]; eapply Hin; try exact Hp;
    rewrite elem_of_union, !elem_of_singleton; auto.
Qed.

(** X5.  An archive command of a user with operator or voice, with an id
    that is not yet registered, while no slot is free: the job is
    registered as pending under that id with the url and the user's
    name, the queued reply is sent, and its run loop is suspended at the
    gate, the semaphore staying at 0; a status query for the id, by
    whatever user, is answered at once with status pending and all
    counters 0.  (With a free slot the run loop goes on without
    suspending: that run is the one that starts with [Acquired].) *)
Theorem archive_queues_pending_job
    (self : Chromebot) (u : User.t) (ctx : ReplyContext) (e : env)
    (url recursive : string) (concurrency : Z)
    (Hpriv : NickMode.operator ∈ modes_of self u ∨ NickMode.voice ∈ modes_of self u)
    (Hfresh : jobs self !! uuid e = None)
    (Hlocked : processLimit self = 0%nat) :
  let out := dispatch self u (NsArchive url recursive concurrency) ctx e in
  raised out = None
  ∧ jobs (after out) = <[uuid e := Job.init (uuid e) (now e) url (User.name u)]> (jobs self)
  ∧ sent (after out)
    = sent self ++ [{| msg_target := target ctx; msg_to := User.name (user ctx);
                       msg_text := Queued url (uuid e) recursive concurrency |}]
  ∧ at_pc <$> tasks (after out) !! uuid e = Some AtGate
  ∧ processLimit (after out) = 0%nat
  ∧ ∀ user2 ctx2 e2,
      dispatch (after out) user2 (NsStatus (uuid e)) ctx2 e2
      = Outcome (send ctx2 (StatusLine url (uuid e) "pending" (PInt 0) (PInt 0) (PInt 0)
                              (PInt 0) (PInt 0) "0.0 B") (after out)) None.
Proof.
  intros out. subst out. cbn [dispatch]. unfold handleArchive, voice.
  rewrite decide_False by (by apply privileged).
  unfold handleArchive_body. cbn [Job.id Job.init].
  rewrite decide_False by (rewrite Hfresh; by intros [? ?]).
  cbn [after raised].
  split; [done|]. split; [done|]. split; [done|].
  split; [cbn; by rewrite lookup_insert_eq|]. split; [exact Hlocked|].
  intros user2 ctx2 e2. cbn [dispatch]. unfold handleStatus, jobExists.
  cbn [Namespace_id]. cbn [jobs with_tasks with_jobs send with_sent].
  rewrite lookup_insert_eq. reflexivity.
Qed.

Lemma archive_queues_pending_job_witness :
  let out := dispatch (after_run evs_reading) alice
               (NsArchive "http://example.com" "prefix" 2) to_alice env0 in
  raised out = None
  ∧ jobs (after out)
    = <[uuid env0 := Job.init (uuid env0) (now env0) "http://example.com" (User.name alice)]>
        (jobs (after_run evs_reading))
  ∧ sent (after out)
    = sent (after_run evs_reading)
      ++ [{| msg_target := target to_alice; msg_to := User.name (user to_alice);
             msg_text := Queued "http://example.com" (uuid env0) "prefix" 2 |}]
  ∧ at_pc <$> tasks (after out) !! uuid env0 = Some AtGate
  ∧ processLimit (after out) = 0%nat
  ∧ ∀ user2 ctx2 e2,
      dispatch (after out) user2 (NsStatus (uuid env0)) ctx2 e2
      = Outcome (send ctx2 (StatusLine "http://example.com" (uuid env0) "pending" (PInt 0)
                              (PInt 0) (PInt 0) (PInt 0) (PInt 0) "0.0 B") (after out)) None.
Proof.
  apply (archive_queues_pending_job (after_run evs_reading) alice to_alice env0
           "http://example.com" "prefix" 2).
  - right. refine (bool_decide_unpack _ _). vm_compute. exact I.
  - vm_compute. reflexivity.
  - vm_compute. reflexivity.
Defined.

(** X6.  A status or (from a privileged user) abort command for an id
    that is not registered is answered with "Job ... is unknown"; no job
    is created and nothing else changes. *)
Theorem unknown_job_is_reported
    (self : Chromebot) (u : User.t) (ctx : ReplyContext) (e : env) (id : string)
    (Hunknown : jobs self !! id = None) :
  dispatch self u (NsStatus id) ctx e = Outcome (send ctx (JobUnknown id) self) None
  ∧ (NickMode.operator ∈ modes_of self u ∨ NickMode.voice ∈ modes_of self u →
     dispatch self u (NsAbort id) ctx e = Outcome (send ctx (JobUnknown id) self) None)
  ∧ jobs (send ctx (JobUnknown id) self) = jobs self
  ∧ tasks (send ctx (JobUnknown id) self) = tasks self.
Proof.
  split; [|split; [|done]].
  - cbn [dispatch]. unfold handleStatus, jobExists. cbn [Namespace_id]. by rewrite Hunknown.
  - intros Hpriv. cbn [dispatch]. unfold handleAbort, voice.
    rewrite decide_False by (by apply privileged).
    unfold jobExists. cbn [Namespace_id]. by rewrite Hunknown.
Qed.

Lemma unknown_job_is_reported_witness :
  dispatch (after_run evs_reading) bob (NsStatus "job-7") to_bob env0
  = Outcome (send to_bob (JobUnknown "job-7") (after_run evs_reading)) None.
Proof.
  refine (proj1 (unknown_job_is_reported (after_run evs_reading) bob to_bob env0 "job-7" _)).
  vm_compute. reflexivity.
Defined.

Lemma abort_job_terminates j :
  Job.live j = true →
  ∃ p, Job.process (abort_job j) = Some p
       ∧ Process.terminated p = true ∧ Process.returncode p = None.
Proof.
  intros Hlive. unfold abort_job.
  replace (Job.live (Job.set_status Status.aborted j)) with true by done.
  unfold Job.live in Hlive. cbn. destruct (Job.process j) as [p|]; [|done].
  exists (Process.terminate p). split; [done|]. split; [done|].
  cbn. by apply bool_decide_eq_true in Hlive.
Qed.

(** X7.  A privileged abort of a job that is pending or running and
    whose worker lives: the job is aborted at once and its process has a
    termination request; whatever happens afterwards (the worker writing
    on, ending, the run loop finishing), the job is aborted, not finished;
    a second abort changes nothing and is answered "This job is not
    running." *)
Theorem abort_of_live_job
    (self self' : Chromebot) (u : User.t) (ctx : ReplyContext) (e : env)
    (id : string) (j : Job.t) (evs : list event)
    (Hpriv : NickMode.operator ∈ modes_of self u ∨ NickMode.voice ∈ modes_of self u)
    (Hj : jobs self !! id = Some j)
    (Hstatus : Job.status j = Status.pending ∨ Job.status j = Status.running)
    (Hlive : Job.live j = true)
    (Hrun : run (after (dispatch self u (NsAbort id) ctx e)) evs = Some self') :
  (∃ j1 p, jobs (after (dispatch self u (NsAbort id) ctx e)) !! id = Some j1
           ∧ Job.status j1 = Status.aborted
           ∧ Job.process j1 = Some p
           ∧ Process.terminated p = true)
  ∧ (∃ j', jobs self' !! id = Some j' ∧ Job.status j' = Status.aborted)
  ∧ dispatch (after (dispatch self u (NsAbort id) ctx e)) u (NsAbort id) ctx e
    = Outcome (send ctx NotRunning (after (dispatch self u (NsAbort id) ctx e))) None.
Proof.
  pose proof (privileged self u Hpriv) as Hp.
  rewrite (dispatch_abort self u ctx e id j Hp Hj Hstatus) in *. cbn [after] in *.
  destruct (abort_job_terminates j Hlive) as (p & Hproc & Hterm & _).
  split; [|split].
  - exists (abort_job j), p. cbn. rewrite lookup_insert_eq.
    split; [done|]. split; [apply abort_job_status|]. by split.
  - destruct (terminal_status_is_final evs _ self' id (abort_job j) Hrun) as (j' & Hj' & Hst).
    + cbn. apply lookup_insert_eq.
    + right. apply abort_job_status.
    + exists j'. split; [done|]. by rewrite Hst, abort_job_status.
  - cbn [dispatch]. unfold handleAbort, voice.
    rewrite decide_False by exact Hp.
    unfold jobExists. cbn [Namespace_id]. cbn [jobs with_jobs].
    rewrite lookup_insert_eq, decide_False; [done|].
    rewrite abort_job_status. by intros [?|?].
Qed.

Lemma abort_of_live_job_witness :
  (∃ j1 p, jobs (after (dispatch (after_run evs_running) alice (NsAbort "job-1") to_alice env0))
             !! "job-1" = Some j1
           ∧ Job.status j1 = Status.aborted
           ∧ Job.process j1 = Some p
           ∧ Process.terminated p = true)
  ∧ (∃ j', jobs (after_run (evs_running ++ abort "alice" "job-1" :: evs_first_ends_1))
             !! "job-1" = Some j'
           ∧ Job.status j' = Status.aborted)
  ∧ dispatch (after (dispatch (after_run evs_running) alice (NsAbort "job-1") to_alice env0))
      alice (NsAbort "job-1") to_alice env0
    = Outcome (send to_alice NotRunning
                 (after (dispatch (after_run evs_running) alice (NsAbort "job-1")
                           to_alice env0))) None.
Proof.
  apply (abort_of_live_job (after_run evs_running) _ alice to_alice env0 "job-1"
           job1_running evs_first_ends_1).
  - right. refine (bool_decide_unpack _ _). vm_compute. exact I.
  - vm_compute. reflexivity.
  - by right.
  - reflexivity.
  - vm_compute. reflexivity.
Defined.

(** ** Aborting while the worker is being spawned *)

Lemma aborted_unterminated_step id self ev self' :
  aborted_unterminated id self → step self ev = Some self' → aborted_unterminated id self'.
Proof.
  intros (j & Hj & Hst & Hnt) Hstep.
  destruct (effect_job _ _ _ _ _ (step_effect _ _ _ Hstep) Hj) as (j' & Hj' & Hchange).
  exists j'. split; [exact Hj'|].
  destruct Hchange as [->|[[-> Hs]|[(now & t0 & -> & _)|[(t0 & -> & _)
                      |[(l & t0 & -> & _)|[(code & -> & _)|(now & t0 & -> & _)]]]]]].
  - done.
  - destruct Hs; congruence.
  - rewrite finish_job_status, Hst. split; [by case_decide|].
    unfold never_terminated. by rewrite finish_job_process.
  - split; [done|]. intros p [= <-]. done.
  - rewrite handle_line_status, Hst. split; [by case_decide|].
    unfold never_terminated. by rewrite handle_line_process.
  - split; [done|]. intros p. cbn.
    destruct (Job.process j) as [p0|] eqn:E; [|done].
    intros [= <-]. cbn. by apply Hnt.
  - rewrite finish_job_status, Hst. split; [by case_decide|].
    unfold never_terminated. by rewrite finish_job_process.
Qed.

Lemma aborted_unterminated_run id evs : ∀ self self',
  aborted_unterminated id self → run self evs = Some self' → aborted_unterminated id self'.
Proof.
  induction evs as [|ev evs IH]; intros self self' Hinv Hrun; cbn in Hrun.
  - by injection Hrun as <-.
  - destruct (step self ev) as [self1|] eqn:Hstep; [|done].
    eapply IH; [|exact Hrun]. by eapply aborted_unterminated_step.
Qed.

(** X8.  A job is aborted while [create_subprocess_exec] is awaited (the
    run loop has the slot, [j.process] is still [None]): no termination
    request is sent then, and none is ever sent later.  The worker is
    still spawned: when the call returns the job has a living process,
    with status aborted. *)
Theorem abort_while_spawning_never_terminates
    (self self' : Chromebot) (u : User.t) (ctx : ReplyContext) (e : env)
    (id : string) (j : Job.t) (t : Task) (evs : list event)
    (Hpriv : NickMode.operator ∈ modes_of self u ∨ NickMode.voice ∈ modes_of self u)
    (Hj : jobs self !! id = Some j)
    (Hpending : Job.status j = Status.pending)
    (Hproc : Job.process j = None)
    (Ht : tasks self !! id = Some t)
    (Hpc : at_pc t = Spawning)
    (Hrun : run (after (dispatch self u (NsAbort id) ctx e)) evs = Some self') :
  (∃ j', jobs self' !! id = Some j' ∧ Job.status j' = Status.aborted
         ∧ ∀ p, Job.process j' = Some p → Process.terminated p = false)
  ∧ ∃ self1 j1,
      step (after (dispatch self u (NsAbort id) ctx e)) (Spawned id) = Some self1
      ∧ jobs self1 !! id = Some j1
      ∧ Job.status j1 = Status.aborted
      ∧ Job.live j1 = true.
Proof.
  pose proof (privileged self u Hpriv) as Hp.
  rewrite (dispatch_abort self u ctx e id j Hp Hj) in * by auto. cbn [after] in *.
  split.
  - assert (Hinv : aborted_unterminated id
                     (with_jobs (<[id:=abort_job j]> (jobs self)) self)).
    { exists (abort_job j). cbn. rewrite lookup_insert_eq.
      split; [done|]. split; [apply abort_job_status|].
      intros p. by rewrite (abort_job_process_None j Hproc). }
    exact (aborted_unterminated_run id evs _ self' Hinv Hrun).
  - eexists _, _. split.
    { cbn [step tasks with_jobs jobs]. rewrite Ht, lookup_insert_eq.
      rewrite decide_True by done. reflexivity. }
    cbn. rewrite lookup_insert_eq. split; [done|].
    split; [apply abort_job_status | done].
Qed.

Lemma abort_while_spawning_never_terminates_witness :
  (∃ j', jobs (after_run (evs_spawning ++ [abort "alice" "job-1"; Spawned "job-1";
                                          Readline "job-1" None])) !! "job-1" = Some j'
         ∧ Job.status j' = Status.aborted
         ∧ ∀ p, Job.process j' = Some p → Process.terminated p = false)
  ∧ ∃ self1 j1,
      step (after (dispatch (after_run evs_spawning) alice (NsAbort "job-1") to_alice env0))
           (Spawned "job-1") = Some self1
      ∧ jobs self1 !! "job-1" = Some j1
      ∧ Job.status j1 = Status.aborted
      ∧ Job.live j1 = true.
Proof.
  apply (abort_while_spawning_never_terminates (after_run evs_spawning) _ alice to_alice env0
           "job-1" job1_queued (task1 Spawning) [Spawned "job-1"; Readline "job-1" None]).
  - right. refine (bool_decide_unpack _ _). vm_compute. exact I.
  - vm_compute. reflexivity.
  - reflexivity.
  - reflexivity.
  - vm_compute. reflexivity.
  - reflexivity.
  - vm_compute. reflexivity.
Defined.

(** ** The end of a run loop *)

Lemma lookup_set_pc_eq id p self t :
  tasks self !! id = Some t → tasks (set_pc id p self) !! id = Some (suspended p t).
Proof. intros Ht. cbn. by rewrite lookup_alter_eq, Ht. Qed.

(** X9.  The output of a living worker ends, the worker exits with
    whatever code and [wait] returns: the run loop ends, the slot is
    free again and the finish time is set.  A running job is finished
    then; every other status is kept, so a job whose worker never wrote
    a line is still pending. *)
Theorem run_loop_ends
    (self : Chromebot) (id : string) (t : Task) (j : Job.t) (code now : Z)
    (Ht : tasks self !! id = Some t)
    (Hpc : at_pc t = Reading)
    (Hj : jobs self !! id = Some j)
    (Hlive : Job.live j = true) :
  ∃ self' j' t',
    run self [Readline id None; Exited id code; Waited id now] = Some self'
    ∧ jobs self' !! id = Some j'
    ∧ Job.status j' = (if decide (Job.status j = Status.running)
                       then Status.finished else Job.status j)
    ∧ Job.finished j' = Some now
    ∧ Job.live j' = false
    ∧ tasks self' !! id = Some t'
    ∧ (at_pc t' = Returned ∨ ∃ x, at_pc t' = Failed x)
    ∧ processLimit self' = S (processLimit self).
Proof.
  set (jx := Job.set_process (Process.exit code <$> Job.process j) j).
  set (s1 := set_pc id Waiting self).
  set (s2 := set_job id jx s1).
  assert (Hlx : Job.live jx = false) by apply exited_not_live.
  assert (H1 : step self (Readline id None) = Some s1).
  { cbn [step]. rewrite Ht, Hj. by rewrite decide_True. }
  assert (H2 : step s1 (Exited id code) = Some s2).
  { cbn [step]. change (jobs s1) with (jobs self). by rewrite Hj, Hlive. }
  assert (Ht2 : tasks s2 !! id = Some (suspended Waiting t)).
  { change (tasks s2) with (tasks s1). by apply lookup_set_pc_eq. }
  assert (Hj2 : jobs s2 !! id = Some jx) by (cbn; apply lookup_insert_eq).
  assert (H3 : step s2 (Waited id now)
               = Some (finish id now jx (suspended Waiting t) (release s2))).
  { cbn [step]. rewrite Ht2, Hj2. cbn [at_pc suspended].
    rewrite bool_decide_eq_true_2 by done.
    by rewrite Hlx. }
  destruct (finish_effect id now jx (suspended Waiting t) (release s2) Ht2)
    as (Hjobs & Htasks & Hsem).
  exists (finish id now jx (suspended Waiting t) (release s2)),
         (finish_job now jx), (suspended (finish_pc now jx) (suspended Waiting t)).
  split; [cbn [run]; by rewrite H1, H2, H3|].
  split; [by rewrite Hjobs, lookup_insert_eq|].
  split; [by rewrite finish_job_status|].
  split; [done|].
  split; [by rewrite finish_job_live|].
  split; [by rewrite Htasks, lookup_insert_eq|].
  split; [apply finish_pc_cases|].
  by rewrite Hsem.
Qed.

Lemma run_loop_ends_witness :
  ∃ self' j' t',
    run (after_run evs_reading) [Readline "job-1" None; Exited "job-1" 1; Waited "job-1" 9]
    = Some self'
    ∧ jobs self' !! "job-1" = Some j'
    ∧ Job.status j' = (if decide (Job.status job1_pending = Status.running)
                       then Status.finished else Job.status job1_pending)
    ∧ Job.finished j' = Some 9
    ∧ Job.live j' = false
    ∧ tasks self' !! "job-1" = Some t'
    ∧ (at_pc t' = Returned ∨ ∃ x, at_pc t' = Failed x)
    ∧ processLimit self' = S (processLimit (after_run evs_reading)).
Proof.
  apply (run_loop_ends (after_run evs_reading) "job-1" (task1 Reading) job1_pending 1 9).
  - vm_compute. reflexivity.
  - reflexivity.
  - vm_compute. reflexivity.
  - reflexivity.
Defined.

(** ** The registry *)

Lemma same_identity_refl j : same_identity j j.
Proof. by repeat split. Qed.

Lemma same_identity_trans j1 j2 j3 :
  same_identity j1 j2 → same_identity j2 j3 → same_identity j1 j3.
Proof. intros (?&?&?&?) (?&?&?&?). repeat split; congruence. Qed.

Lemma same_identity_abort j : same_identity j (abort_job j).
Proof. unfold abort_job. by destruct (Job.live _). Qed.

Lemma same_identity_finish now j : same_identity j (finish_job now j).
Proof. unfold finish_job. by case_decide. Qed.

Lemma same_identity_handle_line l j : same_identity j (handle_line l j).1.
Proof.
  unfold handle_line.
  destruct (decide (Job.status j = Status.pending));
    destruct l as [|[| | | | | |data]]; cbn; try done;
    repeat (case_match; cbn; try done).
Qed.

Lemma handle_line_finished l j : Job.finished (handle_line l j).1 = Job.finished j.
Proof.
  unfold handle_line.
  destruct (decide (Job.status j = Status.pending));
    destruct l as [|[| | | | | |data]]; cbn; try done;
    repeat (case_match; cbn; try done).
Qed.

Lemma same_identity_step self ev self' id j :
  step self ev = Some self' → jobs self !! id = Some j →
  ∃ j', jobs self' !! id = Some j' ∧ same_identity j j'.
Proof.
  intros Hstep Hj.
  destruct (effect_job _ _ _ _ _ (step_effect _ _ _ Hstep) Hj) as (j' & Hj' & Hchange).
  exists j'. split; [exact Hj'|].
  destruct Hchange as [->|[[-> _]|[(now & t0 & -> & _)|[(t0 & -> & _)
                      |[(l & t0 & -> & _)|[(code & -> & _)|(now & t0 & -> & _)]]]]]].
  - apply same_identity_refl.
  - apply same_identity_abort.
  - apply same_identity_finish.
  - done.
  - apply same_identity_handle_line.
  - done.
  - apply same_identity_finish.
Qed.

(** X10.  The registry only grows: whatever happens later, a registered
    job is still registered under the same identifier, and its id, URL,
    owner and start time are the ones it was created with. *)
Theorem registered_job_stays
    (evs : list event) (self self' : Chromebot) (id : string) (j : Job.t)
    (Hrun : run self evs = Some self')
    (Hj : jobs self !! id = Some j) :
  ∃ j', jobs self' !! id = Some j'
    ∧ Job.id j' = Job.id j ∧ Job.url j' = Job.url j
    ∧ Job.nick j' = Job.nick j ∧ Job.started j' = Job.started j.
Proof.
  change (∃ j', jobs self' !! id = Some j' ∧ same_identity j j').
  revert self j Hrun Hj.
  induction evs as [|ev evs IH]; intros self j Hrun Hj; cbn in Hrun.
  - injection Hrun as <-. exists j. split; [done | apply same_identity_refl].
  - destruct (step self ev) as [self1|] eqn:Hstep; [|done].
    destruct (same_identity_step _ _ _ _ _ Hstep Hj) as (j1 & Hj1 & Hid1).
    destruct (IH self1 j1 Hrun Hj1) as (j' & Hj' & Hid').
    exists j'. split; [done|]. by eapply same_identity_trans.
Qed.

Lemma registered_job_stays_witness :
  ∃ j', jobs (after_run (evs_running ++ abort "alice" "job-1" :: evs_first_ends_1))
          !! "job-1" = Some j'
    ∧ Job.id j' = Job.id job1_running ∧ Job.url j' = Job.url job1_running
    ∧ Job.nick j' = Job.nick job1_running ∧ Job.started j' = Job.started job1_running.
Proof.
  apply (registered_job_stays (abort "alice" "job-1" :: evs_first_ends_1)
           (after_run evs_running)).
  - vm_compute. reflexivity.
  - vm_compute. reflexivity.
Defined.

(** ** The life of a job *)

Lemma abort_job_process_is_Some j :
  is_Some (Job.process j) → is_Some (Job.process (abort_job j)).
Proof.
  intros [p Hp]. unfold abort_job, Job.live. cbn. rewrite Hp. cbn.
  case_bool_decide; cbn; rewrite ?Hp; eauto.
Qed.

Lemma abort_job_finished j : Job.finished (abort_job j) = Job.finished j.
Proof. unfold abort_job. by destruct (Job.live _). Qed.

Lemma live_process j : Job.live j = true → is_Some (Job.process j).
Proof. unfold Job.live. destruct (Job.process j); [eauto | done]. Qed.

Lemma finish_pc_not_inside now j p :
  finish_pc now j = p → inside_gate p = false ∧ p ≠ AtGate.
Proof. intros <-. by destruct (finish_pc_cases now j) as [->|[x ->]]. Qed.

Lemma lifecycle_init id now url who : lifecycle id (Job.init id now url who) AtGate.
Proof.
  unfold lifecycle. cbn.
  split; [done|]. split; [done|]. split; [done|].
  split; [intros [? ?]; done|]. split; [done|]. by intros [|].
Qed.

Lemma lifecycle_job_step id j p j' p' :
  job_step j p j' p' → lifecycle id j p → lifecycle id j' p'.
Proof.
  intros Hstep (Hid & Hrun & Hfin & Hend & Hout & Hin).
  assert (Hnone : Job.process j = None →
                  Job.status j ≠ Status.running ∧ Job.status j ≠ Status.finished).
  { intros Hp. split; intros Hs.
    - destruct (Hrun Hs) as [? ?]. congruence.
    - destruct (Hfin Hs) as (_ & [? ?] & _). congruence. }
  destruct Hstep as [ Hst | -> Hst | now -> Hst | -> | -> | -> | l -> Hok | l x -> Hx
                    | -> | code Hlive | now -> Hlive ].
  - (* abort *)
    split; [by rewrite (proj1 (same_identity_abort j))|].
    rewrite abort_job_status, abort_job_finished, abort_job_live.
    split; [done|]. split; [done|]. split; [exact Hend|].
    split.
    + intros Hp. by apply abort_job_process_None, Hout.
    + intros Hp. split; [by apply abort_job_process_is_Some, Hin | done].
  - (* the slot is acquired *)
    split; [done|]. split; [done|]. split; [done|].
    split; [intros Hf; destruct (Hend Hf) as [?|[? ?]]; done|].
    split; [intros _; apply Hout; by left|].
    by intros [|].
  - (* acquired by an aborted job *)
    destruct (Hnone (Hout (or_introl eq_refl))) as [Hnr Hnf].
    split; [by rewrite (proj1 (same_identity_finish now j))|].
    rewrite finish_job_status, finish_job_process, finish_job_live.
    rewrite decide_False by done.
    split; [done|]. split; [done|].
    split; [intros _; apply finish_pc_cases|].
    split; intros Hp.
    + destruct (finish_pc_cases now j) as [E|[x E]]; rewrite E in Hp; by destruct Hp.
    + destruct (finish_pc_cases now j) as [E|[x E]]; rewrite E in Hp; by destruct Hp.
  - (* spawned *)
    destruct (Hnone (Hout (or_intror eq_refl))) as [Hnr Hnf].
    split; [done|]. cbn.
    split; [eauto|]. split; [done|].
    split; [intros Hf; destruct (Hend Hf) as [?|[? ?]]; done|].
    split; [by intros [|]|]. eauto.
  - (* spawn failed *)
    split; [done|]. split; [done|]. split; [done|].
    split; [eauto|]. split; [by intros [|] | by intros [|]].
  - (* end of the stream *)
    split; [done|]. split; [done|]. split; [done|].
    split; [intros Hf; destruct (Hend Hf) as [?|[? ?]]; done|].
    split; [by intros [|]|]. intros _. apply Hin. by left.
  - (* a line *)
    destruct (Hin (or_introl eq_refl)) as [Hp Hnf].
    split; [by rewrite (proj1 (same_identity_handle_line l j))|].
    rewrite handle_line_status, handle_line_process, handle_line_finished.
    unfold Job.live. rewrite handle_line_process.
    split; [done|].
    split; [case_decide; done|].
    split; [exact Hend|].
    split; [by intros [|]|].
    intros _. split; [done|]. by case_decide.
  - (* a line that raises *)
    destruct (Hin (or_introl eq_refl)) as [Hp Hnf].
    split; [by rewrite (proj1 (same_identity_handle_line l j))|].
    rewrite handle_line_status, handle_line_process, handle_line_finished.
    unfold Job.live. rewrite handle_line_process.
    split; [done|].
    split; [case_decide; done|].
    split; [eauto|].
    split; [by intros [|] | by intros [|]].
  - (* the read raises *)
    split; [done|]. split; [done|]. split; [done|].
    split; [eauto|]. split; [by intros [|] | by intros [|]].
  - (* the worker exits *)
    destruct (live_process j Hlive) as [p0 Hp0].
    split; [done|]. cbn. rewrite Hp0. cbn.
    split; [eauto|].
    split; [intros Hs; destruct (Hfin Hs) as (_ & _ & ?); congruence|].
    split; [exact Hend|].
    split; [intros Hp; rewrite (Hout Hp) in Hp0; done|].
    intros Hp. split; [eauto | by apply Hin].
  - (* wait returns *)
    destruct (Hin (or_intror eq_refl)) as [Hp Hnf].
    split; [by rewrite (proj1 (same_identity_finish now j))|].
    rewrite finish_job_status, finish_job_process, finish_job_live.
    split; [done|].
    split; [intros _; split; [by eexists | done]|].
    split; [intros _; apply finish_pc_cases|].
    split; intros Hq.
    + destruct (finish_pc_cases now j) as [E|[x E]]; rewrite E in Hq; by destruct Hq.
    + destruct (finish_pc_cases now j) as [E|[x E]]; rewrite E in Hq; by destruct Hq.
Qed.

(** One block is silent for the jobs, registers a new job, or moves one
    job and its run loop by a [job_step], the semaphore following. *)
Lemma effect_cases self self' ev :
  (∀ id, is_Some (tasks self !! id) ↔ is_Some (jobs self !! id)) →
  effect self self' ev →
  (jobs self' = jobs self ∧ tasks self' = tasks self
   ∧ processLimit self' = processLimit self)
  ∨ (∃ id now url who t,
       jobs self !! id = None
       ∧ jobs self' = <[id := Job.init id now url who]> (jobs self)
       ∧ tasks self' = <[id := t]> (tasks self)
       ∧ at_pc t = AtGate
       ∧ processLimit self' = processLimit self)
  ∨ (∃ id j t jn p,
       jobs self !! id = Some j ∧ tasks self !! id = Some t
       ∧ jobs self' = <[id := jn]> (jobs self)
       ∧ tasks self' = <[id := suspended p t]> (tasks self)
       ∧ job_step j (at_pc t) jn p
       ∧ (processLimit self' + Nat.b2n (inside_gate p)
          = processLimit self + Nat.b2n (holds_slot t))%nat).
Proof.
  intros I2 Heff.
  destruct Heff as
    [ ev Hjobs Htasks Hsem _
    | sender tgt message e url who t Hnew Hjobs Htasks Hpc Hsem
    | sender tgt message e id j Hj Hst Hjobs Htasks Hsem
    | id now t j Ht Hj Hpc Hfree Hst Hjobs Htasks Hsem
    | id now t j Ht Hj Hpc Hfree Hst Hjobs Htasks Hsem
    | id t j Ht Hj Hpc Hjobs Htasks Hsem
    | id t Ht Hpc Hjobs Htasks Hsem
    | id t j Ht Hj Hpc Hjobs Htasks Hsem
    | id l t j Ht Hj Hpc Hok Hjobs Htasks Hsem
    | id l t j x Ht Hj Hpc Hraised Hjobs Htasks Hsem
    | id t Ht Hpc Hjobs Htasks Hsem
    | id code j Hj Hlive Hjobs Htasks Hsem
    | id now t j Ht Hj Hpc Hlive Hjobs Htasks Hsem ].
  - by left.
  - right; left. by exists (uuid e), (now e), url, who, t.
  - destruct (proj2 (I2 id)) as [t Ht]; [by eexists|].
    right; right. exists id, j, t, (abort_job j), (at_pc t).
    split; [done|]. split; [done|]. split; [done|].
    split; [by rewrite Htasks, suspended_same, insert_id|].
    split; [by apply js_abort|]. unfold holds_slot. lia.
  - right; right. exists id, j, t, j, Spawning.
    split; [done|]. split; [done|]. split; [by rewrite Hjobs, insert_id|].
    split; [done|]. split; [by apply js_acquire|].
    unfold holds_slot. rewrite Hpc, Hsem. cbn. lia.
  - right; right. exists id, j, t, (finish_job now j), (finish_pc now j).
    split; [done|]. split; [done|]. split; [done|].
    split; [done|]. split; [by apply js_skip|].
    unfold holds_slot. rewrite Hpc, Hsem, finish_pc_outside. cbn. lia.
  - right; right. exists id, j, t, (Job.set_process (Some Process.spawn) j), Reading.
    split; [done|]. split; [done|]. split; [done|].
    split; [done|]. split; [by apply js_spawned|].
    unfold holds_slot. rewrite Hpc, Hsem. cbn. lia.
  - destruct (proj1 (I2 id)) as [j Hj]; [by eexists|].
    right; right. exists id, j, t, j, (Failed OSError).
    split; [done|]. split; [done|]. split; [by rewrite Hjobs, insert_id|].
    split; [done|]. split; [by apply js_spawn_failed|].
    unfold holds_slot. rewrite Hpc, Hsem. cbn. lia.
  - right; right. exists id, j, t, j, Waiting.
    split; [done|]. split; [done|]. split; [by rewrite Hjobs, insert_id|].
    split; [done|]. split; [by apply js_eof|].
    unfold holds_slot. rewrite Hpc, Hsem. cbn. lia.
  - right; right. exists id, j, t, (handle_line l j).1, Reading.
    split; [done|]. split; [done|]. split; [done|].
    split; [by rewrite Htasks, <- Hpc, suspended_same, insert_id|].
    split; [by apply js_line|].
    unfold holds_slot. rewrite Hpc, Hsem. cbn. lia.
  - right; right. exists id, j, t, (handle_line l j).1, (Failed x).
    split; [done|]. split; [done|]. split; [done|].
    split; [done|]. split; [by apply js_line_raised|].
    unfold holds_slot. rewrite Hpc, Hsem. cbn. lia.
  - destruct (proj1 (I2 id)) as [j Hj]; [by eexists|].
    right; right. exists id, j, t, j, (Failed ValueError).
    split; [done|]. split; [done|]. split; [by rewrite Hjobs, insert_id|].
    split; [done|]. split; [by apply js_read_failed|].
    unfold holds_slot. rewrite Hpc, Hsem. cbn. lia.
  - destruct (proj2 (I2 id)) as [t Ht]; [by eexists|].
    right; right.
    exists id, j, t, (Job.set_process (Process.exit code <$> Job.process j) j), (at_pc t).
    split; [done|]. split; [done|]. split; [done|].
    split; [by rewrite Htasks, suspended_same, insert_id|].
    split; [by apply js_exited|]. unfold holds_slot. lia.
  - right; right. exists id, j, t, (finish_job now j), (finish_pc now j).
    split; [done|]. split; [done|]. split; [done|].
    split; [done|]. split; [by apply js_waited|].
    unfold holds_slot. rewrite Hpc, Hsem, finish_pc_outside. cbn. lia.
Qed.

(** ** Slots, for any worker output *)

Lemma slots_invariant_step limit self ev self' :
  slots_invariant limit self → step self ev = Some self' → slots_invariant limit self'.
Proof.
  intros (I1 & I2) Hstep.
  destruct (effect_cases self self' ev I2 (step_effect _ _ _ Hstep))
    as [(Hjobs & Htasks & Hsem)
       |[(id & now & url & who & t & Hnew & Hjobs & Htasks & Hpc & Hsem)
        |(id & j & t & jn & p & Hj & Ht & Hjobs & Htasks & _ & Hsem)]].
  - unfold slots_invariant, holders. by rewrite Hjobs, Htasks, Hsem.
  - assert (Hnot : tasks self !! id = None).
    { destruct (tasks self !! id) eqn:E; [|done].
      destruct (proj1 (I2 id)) as [j Hj]; [by eexists | congruence]. }
    split.
    + unfold holders. rewrite Htasks, Hsem, size_holders_insert_new; [done..|].
      unfold holds_slot. by rewrite Hpc.
    + intros id'. rewrite Hjobs, Htasks.
      destruct (decide (id = id')) as [->|Hne].
      * rewrite !lookup_insert_eq. split; eauto.
      * rewrite !lookup_insert_ne by done. apply I2.
  - split.
    + unfold holders in *. rewrite Htasks.
      pose proof (size_holders_insert (tasks self) id t (suspended p t) Ht) as Hsz.
      change (holds_slot (suspended p t)) with (inside_gate p) in Hsz. lia.
    + intros id'. rewrite Hjobs, Htasks.
      destruct (decide (id = id')) as [->|Hne].
      * rewrite !lookup_insert_eq. split; eauto.
      * rewrite !lookup_insert_ne by done. apply I2.
Qed.

Lemma slots_invariant_run limit evs : ∀ self self',
  slots_invariant limit self → run self evs = Some self' → slots_invariant limit self'.
Proof.
  induction evs as [|ev evs IH]; intros self self' Hinv Hrun; cbn in Hrun.
  - by injection Hrun as <-.
  - destruct (step self ev) as [self1|] eqn:Hstep; [|done].
    eapply IH; [|exact Hrun]. by eapply slots_invariant_step.
Qed.

Lemma slots_invariant_init who chans limit parse_args :
  slots_invariant limit (Chromebot_init who chans limit parse_args).
Proof.
  split.
  - unfold holders. cbn. rewrite map_filter_empty, map_size_empty. lia.
  - intros id. cbn. by rewrite !lookup_empty.
Qed.

(** X12.  A bot started with [limit] slots, any parser and any sequence
    of blocks of the event loop, whatever the workers write (lines that
    do not decode, reads and spawns that fail included): the free slots
    and the run loops inside [async with self.processLimit] add up to
    [limit], so a slot is neither lost nor handed out twice, and never
    more than [limit] run loops are inside.  Every job has a run loop
    and every run loop a job. *)
Theorem slots_add_up
    (who : string) (chans : list string) (limit : nat)
    (parse_args : list string → parsed) (evs : list event) (self : Chromebot)
    (Hrun : run (Chromebot_init who chans limit parse_args) evs = Some self) :
  (processLimit self + size (holders self) = limit)%nat
  ∧ (size (holders self) ≤ limit)%nat
  ∧ ∀ id, is_Some (tasks self !! id) ↔ is_Some (jobs self !! id).
Proof.
  destruct (slots_invariant_run limit evs _ self
              (slots_invariant_init who chans limit parse_args) Hrun) as (I1 & I2).
  split; [exact I1|]. split; [lia | exact I2].
Qed.

Lemma slots_add_up_witness :
  (processLimit (after_run evs_two_running) + size (holders (after_run evs_two_running)) = 1)%nat
  ∧ (size (holders (after_run evs_two_running)) ≤ 1)%nat
  ∧ ∀ id, is_Some (tasks (after_run evs_two_running) !! id)
          ↔ is_Some (jobs (after_run evs_two_running) !! id).
Proof.
  apply (slots_add_up "chromebot" ["#crocoite"] 1 (getParser "chromebot") evs_two_running).
  vm_compute. reflexivity.
Defined.

(** ** What holds of every job *)

Lemma lifecycle_invariant_step self ev self' :
  lifecycle_invariant self → step self ev = Some self' → lifecycle_invariant self'.
Proof.
  intros (I2 & IL) Hstep.
  assert (I2' : ∀ id, is_Some (tasks self' !! id) ↔ is_Some (jobs self' !! id)).
  { assert (Hs : slots_invariant (processLimit self + size (holders self)) self) by done.
    apply (slots_invariant_step _ _ _ _ Hs Hstep). }
  split; [exact I2'|].
  destruct (effect_cases self self' ev I2 (step_effect _ _ _ Hstep))
    as [(Hjobs & Htasks & Hsem)
       |[(id & now & url & who & t & Hnew & Hjobs & Htasks & Hpc & Hsem)
        |(id & j & t & jn & p & Hj & Ht & Hjobs & Htasks & Hjs & Hsem)]];
    intros id' j' t'; rewrite Hjobs, Htasks.
  - apply IL.
  - destruct (decide (id = id')) as [->|Hne].
    + rewrite !lookup_insert_eq. intros [= <-] [= <-]. rewrite Hpc. apply lifecycle_init.
    + rewrite !lookup_insert_ne by done. apply IL.
  - destruct (decide (id = id')) as [->|Hne].
    + rewrite !lookup_insert_eq. intros [= <-] [= <-]. cbn [at_pc suspended].
      eapply lifecycle_job_step; [exact Hjs|]. by apply IL.
    + rewrite !lookup_insert_ne by done. apply IL.
Qed.

Lemma lifecycle_invariant_run evs : ∀ self self',
  lifecycle_invariant self → run self evs = Some self' → lifecycle_invariant self'.
Proof.
  induction evs as [|ev evs IH]; intros self self' Hinv Hrun; cbn in Hrun.
  - by injection Hrun as <-.
  - destruct (step self ev) as [self1|] eqn:Hstep; [|done].
    eapply IH; [|exact Hrun]. by eapply lifecycle_invariant_step.
Qed.

Lemma lifecycle_invariant_init who chans limit parse_args :
  lifecycle_invariant (Chromebot_init who chans limit parse_args).
Proof.
  split.
  - intros id. cbn. by rewrite !lookup_empty.
  - intros id j t. cbn. by rewrite lookup_empty.
Qed.

(** X11.  In every state a bot reaches, a job of the registry is stored
    under its own id; a running job has a worker process; a finished
    job has its finish time set and a worker that has exited; and a
    finish time is set only once the run loop of the job has ended. *)
Theorem registered_job_is_consistent
    (who : string) (chans : list string) (limit : nat)
    (parse_args : list string → parsed) (evs : list event) (self : Chromebot)
    (id : string) (j : Job.t)
    (Hrun : run (Chromebot_init who chans limit parse_args) evs = Some self)
    (Hj : jobs self !! id = Some j) :
  Job.id j = id
  ∧ (Job.status j = Status.running → is_Some (Job.process j))
  ∧ (Job.status j = Status.finished →
       is_Some (Job.finished j)
       ∧ ∃ p code, Job.process j = Some p ∧ Process.returncode p = Some code)
  ∧ (is_Some (Job.finished j) →
       ∃ t, tasks self !! id = Some t ∧ (at_pc t = Returned ∨ ∃ x, at_pc t = Failed x)).
Proof.
  destruct (lifecycle_invariant_run evs _ self
              (lifecycle_invariant_init who chans limit parse_args) Hrun) as (I2 & IL).
  destruct (proj2 (I2 id)) as [t Ht]; [by eexists|].
  destruct (IL id j t Hj Ht) as (Hid & Hrunning & Hfin & Hend & _ & _).
  split; [exact Hid|]. split; [exact Hrunning|]. split.
  - intros Hs. destruct (Hfin Hs) as (Hf & [p Hp] & Hlive).
    split; [exact Hf|]. unfold Job.live in Hlive. rewrite Hp in Hlive.
    destruct (Process.returncode p) as [code|] eqn:E; [by exists p, code|].
    by rewrite bool_decide_eq_true_2 in Hlive.
  - intros Hf. exists t. split; [exact Ht | by apply Hend].
Qed.

Lemma registered_job_is_consistent_witness :
  Job.id job1_finished = "job-1"
  ∧ (Job.status job1_finished = Status.running → is_Some (Job.process job1_finished))
  ∧ (Job.status job1_finished = Status.finished →
       is_Some (Job.finished job1_finished)
       ∧ ∃ p code, Job.process job1_finished = Some p ∧ Process.returncode p = Some code)
  ∧ (is_Some (Job.finished job1_finished) →
       ∃ t, tasks (after_run (evs_running ++ evs_first_ends_1)) !! "job-1" = Some t
            ∧ (at_pc t = Returned ∨ ∃ x, at_pc t = Failed x)).
Proof.
  apply (registered_job_is_consistent "chromebot" ["#crocoite"] 1 (getParser "chromebot")
           (evs_running ++ evs_first_ends_1)).
  - vm_compute. reflexivity.
  - vm_compute. reflexivity.
Defined.

(** ** A worker that cannot be spawned *)

Lemma spawn_failed_step id self ev self' :
  spawn_failed id self → step self ev = Some self' → spawn_failed id self'.
Proof.
  intros (j & t & Hj & Ht & Hpc & Hst & Hproc & Hfin) Hstep.
  pose proof (step_effect _ _ _ Hstep) as Heff.
  destruct (effect_task _ _ _ _ _ _ Heff Ht Hj) as (t' & Ht' & Hmove).
  assert (Hpc' : at_pc t' = Failed OSError).
  { destruct Hmove as [E|[(E & _)|[(E & _)|[(E & _)|[(E & _)|(E & _)]]]]]; congruence. }
  destruct (effect_job _ _ _ _ _ Heff Hj) as (j' & Hj' & Hchange).
  exists j', t'. split; [exact Hj'|]. split; [exact Ht'|]. split; [exact Hpc'|].
  destruct Hchange as [->|[[-> Hs]|[(now & t0 & _ & _ & Ht0 & Hpc0 & _)
                      |[(t0 & _ & _ & Ht0 & Hpc0)
                      |[(l & t0 & _ & _ & Ht0 & Hpc0)|[(code & _ & Hlive)
                      |(now & t0 & _ & _ & Ht0 & Hpc0 & _)]]]]]];
    try (assert (t0 = t) as -> by congruence; congruence).
  - done.
  - rewrite abort_job_status, abort_job_finished, (abort_job_process_None j Hproc).
    split; [by right | done].
  - unfold Job.live in Hlive. by rewrite Hproc in Hlive.
Qed.

Lemma spawn_failed_run id evs : ∀ self self',
  spawn_failed id self → run self evs = Some self' → spawn_failed id self'.
Proof.
  induction evs as [|ev evs IH]; intros self self' Hinv Hrun; cbn in Hrun.
  - by injection Hrun as <-.
  - destruct (step self ev) as [self1|] eqn:Hstep; [|done].
    eapply IH; [|exact Hrun]. by eapply spawn_failed_step.
Qed.

(** X13.  [create_subprocess_exec] raises for a pending job: the slot
    is given back and nothing is said on the channel; from then on the
    run loop is dead, the job has no process and no finish time, and its
    status is pending for ever unless somebody aborts it. *)
Theorem failed_spawn_leaves_job_pending
    (self self' : Chromebot) (id : string) (j : Job.t) (t : Task) (evs : list event)
    (Hj : jobs self !! id = Some j)
    (Ht : tasks self !! id = Some t)
    (Hpc : at_pc t = Spawning)
    (Hst : Job.status j = Status.pending)
    (Hproc : Job.process j = None)
    (Hfin : Job.finished j = None)
    (Hrun : run self (SpawnFailed id :: evs) = Some self') :
  (∃ self1, step self (SpawnFailed id) = Some self1
            ∧ processLimit self1 = S (processLimit self)
            ∧ sent self1 = sent self)
  ∧ ∃ j' t', jobs self' !! id = Some j' ∧ tasks self' !! id = Some t'
      ∧ at_pc t' = Failed OSError
      ∧ (Job.status j' = Status.pending ∨ Job.status j' = Status.aborted)
      ∧ Job.process j' = None ∧ Job.finished j' = None.
Proof.
  assert (H1 : step self (SpawnFailed id)
               = Some (set_pc id (Failed OSError) (release self))).
  { cbn [step]. rewrite Ht. by rewrite decide_True. }
  split; [by eexists|].
  cbn [run] in Hrun. rewrite H1 in Hrun.
  change (spawn_failed id self').
  apply (spawn_failed_run id evs (set_pc id (Failed OSError) (release self)) self');
    [|exact Hrun].
  exists j, (suspended (Failed OSError) t).
  split; [exact Hj|].
  split; [by apply (lookup_set_pc_eq id (Failed OSError) (release self) t)|].
  split; [done|]. split; [by left | done].
Qed.

Lemma failed_spawn_leaves_job_pending_witness :
  (∃ self1, step (after_run evs_spawning) (SpawnFailed "job-1") = Some self1
            ∧ processLimit self1 = S (processLimit (after_run evs_spawning))
            ∧ sent self1 = sent (after_run evs_spawning))
  ∧ ∃ j' t',
      jobs (after_run (evs_spawning
              ++ [SpawnFailed "job-1"; archive "alice" "job-2" "http://example.com";
                  Acquired "job-2" 2])) !! "job-1" = Some j'
      ∧ tasks (after_run (evs_spawning
              ++ [SpawnFailed "job-1"; archive "alice" "job-2" "http://example.com";
                  Acquired "job-2" 2])) !! "job-1" = Some t'
      ∧ at_pc t' = Failed OSError
      ∧ (Job.status j' = Status.pending ∨ Job.status j' = Status.aborted)
      ∧ Job.process j' = None ∧ Job.finished j' = None.
Proof.
  apply (failed_spawn_leaves_job_pending (after_run evs_spawning) _ "job-1"
           job1_queued (task1 Spawning)
           [archive "alice" "job-2" "http://example.com"; Acquired "job-2" 2]).
  - vm_compute. reflexivity.
  - vm_compute. reflexivity.
  - reflexivity.
  - reflexivity.
  - reflexivity.
  - reflexivity.
  - vm_compute. reflexivity.
Defined.

(** ** Mode strings *)

(** X14.  [parseMode] yields one pair for every character of the mode
    string that is not a sign, in the order of the string, and the action
    of every pair is a sign. *)
Theorem parseMode_pairs (mode : string) :
  (parseMode mode).*2 = filter (λ c, is_sign c = false) (list_ascii_of_string mode)
  ∧ Forall (λ x, is_sign x.1 = true) (parseMode mode).
Proof.
  unfold parseMode.
  assert (H : ∀ action, is_sign action = true →
    (parseMode_from action mode).*2
      = filter (λ c, is_sign c = false) (list_ascii_of_string mode)
    ∧ Forall (λ x, is_sign x.1 = true) (parseMode_from action mode)).
  { induction mode as [|c rest IH]; intros action Ha; cbn [parseMode_from list_ascii_of_string].
    - by split.
    - case_decide as Hc.
      + destruct (IH c) as [IH1 IH2]; [by apply bool_decide_eq_true_2|].
        split; [|exact IH2].
        rewrite filter_cons_False; [exact IH1|].
        unfold is_sign. rewrite bool_decide_eq_true_2 by done. done.
      + destruct (IH action Ha) as [IH1 IH2].
        split.
        * rewrite filter_cons_True by (by apply bool_decide_eq_false_2).
          cbn. by rewrite IH1.
        * by constructor. }
  apply H. by apply bool_decide_eq_true_2; left.
Qed.

(** X15.  A mode letter other than [v] and [o] is skipped together with
    the parameter that [zip] pairs it with.  When the letter takes no
    parameter on the wire, the nick meant for the next letter is used up
    by it: in [+mv nick] the grant of [v] is lost. *)
Theorem unknown_mode_letter_takes_a_parameter
    (channel : string) (x : ascii) (modes : string) (param : string)
    (params : list string) (self : Chromebot)
    (Hsign : is_sign x = false)
    (Hv : x ≠ "v"%char) (Ho : x ≠ "o"%char) :
  onMode channel (String x modes) (param :: params) self = onMode channel modes params self
  ∧ onMode channel (String x modes) [param] self = self.
Proof.
  assert (Hparse : parseMode (String x modes) = ("+"%char, x) :: parseMode modes).
  { unfold parseMode. cbn [parseMode_from].
    apply bool_decide_eq_false_1 in Hsign. by rewrite decide_False. }
  assert (Hskip : ∀ s, onMode_apply channel s ("+"%char, x, param) = s).
  { intros s. unfold onMode_apply, NickMode.fromMode. by rewrite !decide_False. }
  unfold onMode. rewrite Hparse.
  case_decide; [|done].
  split.
  - cbn [zip zip_with foldl]. by rewrite Hskip.
  - destruct (parseMode modes); cbn [zip zip_with foldl]; by rewrite Hskip.
Qed.

Lemma unknown_mode_letter_takes_a_parameter_witness :
  onMode "#crocoite" (String "m" "v") ("bob" :: []) (after_run evs_queued)
  = onMode "#crocoite" "v" [] (after_run evs_queued)
  ∧ onMode "#crocoite" (String "m" "v") ["bob"] (after_run evs_queued) = after_run evs_queued.
Proof.
  apply (unknown_mode_letter_takes_a_parameter "#crocoite" "m" "v" "bob" []).
  - reflexivity.
  - discriminate.
  - discriminate.
Defined.

(** ** NAMES replies *)

Lemma members_view self channel :
  members self channel = view (sets self) (default ∅ (users self !! channel)).
Proof. reflexivity. Qed.

Lemma fromName_listed c rest store :
  fromName (String c rest) store
  = Ok (User.Build (listed (String c rest)).1 (length store),
        store ++ [(listed (String c rest)).2]).
Proof. unfold fromName, listed. by destruct (NickMode.of_value c). Qed.

Lemma view_insert_fresh store acc k x :
  (∀ i u, acc !! i = Some u → (User.modes u < length store)%nat) →
  view (store ++ [x]) (<[k := User.Build k (length store)]> acc)
  = <[k := (k, x)]> (view store acc).
Proof.
  intros Hold. unfold view. rewrite fmap_insert. cbn.
  rewrite lookup_app_r, Nat.sub_diag by lia. cbn. f_equal.
  apply map_fmap_ext. intros i u Hu. cbn.
  by rewrite lookup_app_l by (by eapply Hold).
Qed.

Lemma fromNames_view names : ∀ acc store,
  "" ∉ names →
  (∀ i u, acc !! i = Some u → (User.modes u < length store)%nat) →
  ∃ m store',
    fromNames names acc store = Ok (m, store')
    ∧ view store' m = foldl (λ a n, <[(listed n).1 := listed n]> a) (view store acc) names.
Proof.
  induction names as [|n rest IH]; intros acc store Hne Hold.
  - by exists acc, store.
  - destruct n as [|c r]; [exfalso; apply Hne; by left|].
    cbn [fromNames foldl]. rewrite fromName_listed.
    destruct (listed (String c r)) as [k x]. cbn.
    destruct (IH (<[k := User.Build k (length store)]> acc) (store ++ [x]))
      as (m & store' & Hm & Hview).
    + intros Hin. apply Hne. by right.
    + intros i u. rewrite length_app. cbn.
      destruct (decide (k = i)) as [->|Hi].
      * rewrite lookup_insert_eq. intros [= <-]. cbn. lia.
      * rewrite lookup_insert_ne by done. intros Hu. specialize (Hold i u Hu). lia.
    + exists m, store'. split; [exact Hm|].
      by rewrite Hview, view_insert_fresh.
Qed.

(** X16.  A NAMES reply whose entries are all non-empty, for any channel
    (joined or not): the membership of the channel is replaced by the
    entries of the reply and nothing of the old one is kept.  Every
    entry is stored under its nick without the prefix, with the modes of
    its prefix and with a set of its own; of two entries for one nick
    the later one counts. *)
Theorem names_reply_replaces_members
    (channel : string) (names : list string) (self : Chromebot)
    (Hnames : "" ∉ names) :
  ∃ self',
    onNameReply channel names self = Outcome self' None
    ∧ members self' channel
      = foldl (λ a n, <[(listed n).1 := listed n]> a) ∅ names.
Proof.
  destruct (fromNames_view names ∅ (sets self) Hnames) as (m & store' & Hm & Hview).
  { intros i u. by rewrite lookup_empty. }
  unfold onNameReply. rewrite Hm. eexists. split; [reflexivity|].
  rewrite members_view. cbn [users sets with_users with_sets].
  rewrite lookup_insert_eq. cbn [default]. unfold id.
  rewrite Hview. unfold view. by rewrite fmap_empty.
Qed.

Lemma names_reply_replaces_members_witness :
  ∃ self',
    onNameReply "#crocoite" ["@carol"; "+alice"; "alice"; "bob"] (after_run evs_queued)
    = Outcome self' None
    ∧ members self' "#crocoite"
      = foldl (λ a n, <[(listed n).1 := listed n]> a) ∅ ["@carol"; "+alice"; "alice"; "bob"].
Proof.
  apply (names_reply_replaces_members "#crocoite" ["@carol"; "+alice"; "alice"; "bob"]).
  refine (bool_decide_unpack _ _). vm_compute. exact I.
Defined.

Lemma fromNames_empty_name names : ∀ acc store,
  "" ∈ names → fromNames names acc store = Raise IndexError.
Proof.
  induction names as [|n rest IH]; intros acc store Hin.
  - by apply elem_of_nil in Hin.
  - destruct n as [|c r]; [done|].
    apply elem_of_cons in Hin as [Hin|Hin]; [done|].
    cbn [fromNames]. rewrite fromName_listed. cbn. by apply IH.
Qed.

(** X17.  A NAMES reply with an empty entry (as a trailing space in the
    list gives): [name[0]] raises [IndexError], which [fromName] does
    not catch; the handler ends with it and the membership is left as it
    was, the entries before the empty one included. *)
Theorem names_reply_with_empty_entry
    (channel : string) (names : list string) (self : Chromebot)
    (Hnames : "" ∈ names) :
  onNameReply channel names self = Outcome self (Some IndexError).
Proof. unfold onNameReply. by rewrite fromNames_empty_name. Qed.

Lemma names_reply_with_empty_entry_witness :
  onNameReply "#crocoite" ["+carol"; ""] (after_run evs_queued)
  = Outcome (after_run evs_queued) (Some IndexError).
Proof.
  apply (names_reply_with_empty_entry "#crocoite" ["+carol"; ""]).
  refine (bool_decide_unpack _ _). vm_compute. exact I.
Defined.

(** ** Modes of listed nicks *)

Lemma fromNames_own_sets base names : ∀ acc store m store',
  (base ≤ length store)%nat →
  own_sets base store acc →
  fromNames names acc store = Ok (m, store') →
  own_sets base store' m.
Proof.
  induction names as [|n rest IH]; intros acc store m store' Hbase Hacc Hm.
  - cbn in Hm. by injection Hm as <- <-.
  - destruct n as [|c r]; [done|].
    cbn [fromNames] in Hm. rewrite fromName_listed in Hm.
    destruct (listed (String c r)) as [k x]. cbn in Hm.
    assert (Hb : (base ≤ length (store ++ [x]))%nat) by (rewrite length_app; lia).
    refine (IH _ _ _ _ Hb _ Hm).
    intros i u. rewrite length_app. cbn [length].
    destruct (decide (k = i)) as [->|Hi].
    + rewrite lookup_insert_eq. intros [= <-]. cbn.
      split; [done|]. split; [lia|].
      intros k' u'. destruct (decide (i = k')) as [->|Hk']; [done|].
      rewrite lookup_insert_ne by done. intros Hu' Heq.
      destruct (Hacc k' u' Hu') as (_ & Hlt & _). lia.
    + rewrite lookup_insert_ne by done. intros Hu.
      destruct (Hacc i u Hu) as (Hname & Hlt & Hinj).
      split; [done|]. split; [lia|].
      intros k' u'. destruct (decide (k = k')) as [->|Hk'].
      * rewrite lookup_insert_eq. intros [= <-]. cbn. lia.
      * rewrite lookup_insert_ne by done. apply Hinj.
Qed.

Lemma view_update base store mm who u x :
  own_sets base store mm → mm !! who = Some u →
  view (<[User.modes u := x]> store) mm = <[who := (who, x)]> (view store mm).
Proof.
  intros Hown Hu. destruct (Hown who u Hu) as (Hname & Hlt & Hinj).
  apply map_eq. intros i. unfold view. rewrite lookup_fmap.
  destruct (decide (who = i)) as [<-|Hi].
  - rewrite lookup_insert_eq, Hu. cbn.
    rewrite list_lookup_insert_eq by lia. cbn. by rewrite Hname.
  - rewrite lookup_insert_ne, lookup_fmap by done.
    destruct (mm !! i) as [ui|] eqn:Hui; cbn; [|done].
    rewrite list_lookup_insert_ne; [done|].
    intros Heq. apply Hi. symmetry. by apply (Hinj i ui).
Qed.

(** X18.  After a NAMES reply for a joined channel, a mode change [+v],
    [+o], [-v] or [-o] for a listed nick changes the modes of that nick
    and of nobody else in the channel; taking away a mode the nick does
    not have changes nothing. *)
Theorem mode_change_reaches_listed_nick_only
    (channel : string) (names : list string) (self self1 : Chromebot)
    (who : string) (e : string * gset NickMode.t) (letter : ascii) (m : NickMode.t)
    (Hjoined : channel ∈ channels self)
    (Hnames : onNameReply channel names self = Outcome self1 None)
    (Hwho : members self1 channel !! who = Some e)
    (Hletter : NickMode.fromMode letter = Ok m) :
  members (onMode channel (String "+" (String letter "")) [who] self1) channel
  = <[who := (who, e.2 ∪ {[ m ]})]> (members self1 channel)
  ∧ members (onMode channel (String "-" (String letter "")) [who] self1) channel
    = <[who := (who, e.2 ∖ {[ m ]})]> (members self1 channel).
Proof.
  unfold onNameReply in Hnames.
  destruct (fromNames names ∅ (sets self)) as [[mm store']|x] eqn:Hm; [|done].
  injection Hnames as <-.
  assert (Hown : own_sets (length (sets self)) store' mm).
  { eapply fromNames_own_sets; [|by intros i u; rewrite lookup_empty|exact Hm]. done. }
  set (self1 := with_users (<[channel := mm]> (users self)) (with_sets store' self)) in *.
  assert (Husers : users self1 !! channel = Some mm) by (cbn; apply lookup_insert_eq).
  assert (Hmem : members self1 channel = view store' mm).
  { rewrite members_view, Husers. done. }
  rewrite Hmem in Hwho. unfold view in Hwho. rewrite lookup_fmap in Hwho.
  destruct (mm !! who) as [u|] eqn:Hu; [|done]. cbn in Hwho.
  injection Hwho as <-. cbn [snd].
  assert (Hsign : is_sign letter = false).
  { unfold NickMode.fromMode in Hletter. repeat case_decide; by subst. }
  apply bool_decide_eq_false_1 in Hsign.
  assert (Hplus : parseMode (String "+" (String letter "")) = [("+"%char, letter)]).
  { unfold parseMode. cbn [parseMode_from].
    rewrite decide_True by (by left). by rewrite decide_False. }
  assert (Hminus : parseMode (String "-" (String letter "")) = [("-"%char, letter)]).
  { unfold parseMode. cbn [parseMode_from].
    rewrite decide_True by (by right). by rewrite decide_False. }
  unfold onMode. rewrite Hplus, Hminus.
  rewrite !decide_True by done. cbn [zip zip_with foldl].
  unfold onMode_apply. rewrite Hletter. unfold users_at. rewrite Husers, Hu.
  cbn [default]. unfold id, modes_of.
  change (sets self1) with store'.
  split.
  - rewrite decide_True by done.
    rewrite members_view. cbn [users sets with_sets]. rewrite Husers. cbn [default].
    unfold id. rewrite Hmem. by apply (view_update (length (sets self))).
  - rewrite decide_False by done. rewrite decide_True by done.
    case_decide as Hin.
    + rewrite members_view. cbn [users sets with_sets]. rewrite Husers. cbn [default].
      unfold id. rewrite Hmem. by apply (view_update (length (sets self))).
    + rewrite Hmem.
      replace (default ∅ (store' !! User.modes u) ∖ {[m]})
        with (default ∅ (store' !! User.modes u))
        by (symmetry; apply difference_disjoint_L; by apply disjoint_singleton_r).
      symmetry. apply insert_id. unfold view. rewrite lookup_fmap, Hu. cbn.
      by rewrite (proj1 (Hown who u Hu)).
Qed.

Lemma mode_change_reaches_listed_nick_only_witness :
  members (onMode "#crocoite" (String "+" (String "v" "")) ["bob"] (after_run [names]))
          "#crocoite"
  = <[ "bob" := ("bob", ("bob", ∅ : gset NickMode.t).2 ∪ {[ NickMode.voice ]})]>
      (members (after_run [names]) "#crocoite")
  ∧ members (onMode "#crocoite" (String "-" (String "v" "")) ["bob"] (after_run [names]))
            "#crocoite"
    = <[ "bob" := ("bob", ("bob", ∅ : gset NickMode.t).2 ∖ {[ NickMode.voice ]})]>
        (members (after_run [names]) "#crocoite").
Proof.
  apply (mode_change_reaches_listed_nick_only "#crocoite" ["+alice"; "bob"] bot0
           (after_run [names]) "bob" ("bob", ∅) "v" NickMode.voice).
  - refine (bool_decide_unpack _ _). vm_compute. exact I.
  - vm_compute. reflexivity.
  - vm_compute. reflexivity.
  - reflexivity.
Defined.

(** ** Joining and leaving *)

(** X19.  In a joined channel: a JOIN enters the nick with the set that
    is the default argument of [User.__init__]; a PART removes the
    nick, and removes nothing when the nick is not there; a PART after a
    JOIN leaves the channel as it was without the nick. *)
Theorem join_and_part
    (who channel : string) (self : Chromebot)
    (Hjoined : channel ∈ channels self) :
  members (onJoin who channel self) channel
  = <[who := (who, default ∅ (sets self !! default_modes))]> (members self channel)
  ∧ members (onPart who channel self) channel = delete who (members self channel)
  ∧ members (onPart who channel (onJoin who channel self)) channel
    = delete who (members self channel).
Proof.
  assert (Hjoin : ∀ s, channel ∈ channels s →
    members (onJoin who channel s) channel
    = <[who := (who, default ∅ (sets s !! default_modes))]> (members s channel)
    ∧ channels (onJoin who channel s) = channels s
    ∧ sets (onJoin who channel s) = sets s).
  { intros s Hs. unfold onJoin. rewrite decide_True by done.
    unfold users_at. rewrite !members_view.
    destruct (users s !! channel) as [mm|] eqn:E; cbn [users sets with_users channels];
      rewrite lookup_insert_eq; cbn [default]; unfold id, view;
      by rewrite fmap_insert. }
  assert (Hpart : ∀ s, channel ∈ channels s →
    members (onPart who channel s) channel = delete who (members s channel)).
  { intros s Hs. unfold onPart. rewrite decide_True by done.
    unfold users_at. rewrite !members_view.
    destruct (users s !! channel) as [mm|] eqn:E; cbn [users sets with_users channels];
      rewrite lookup_insert_eq; cbn [default]; unfold id, view;
      by rewrite fmap_delete. }
  destruct (Hjoin self Hjoined) as (Hj1 & Hj2 & Hj3).
  split; [exact Hj1|]. split; [by apply Hpart|].
  rewrite Hpart by (by rewrite Hj2). rewrite Hj1. apply delete_insert_eq.
Qed.

Lemma join_and_part_witness :
  members (onJoin "carol" "#crocoite" (after_run [names])) "#crocoite"
  = <[ "carol" := ("carol", default ∅ (sets (after_run [names]) !! default_modes))]>
      (members (after_run [names]) "#crocoite")
  ∧ members (onPart "carol" "#crocoite" (after_run [names])) "#crocoite"
    = delete "carol" (members (after_run [names]) "#crocoite")
  ∧ members (onPart "carol" "#crocoite" (onJoin "carol" "#crocoite" (after_run [names])))
            "#crocoite"
    = delete "carol" (members (after_run [names]) "#crocoite").
Proof.
  apply (join_and_part "carol" "#crocoite" (after_run [names])).
  refine (bool_decide_unpack _ _). vm_compute. exact I.
Defined.

(** ** What counts as addressed to the bot *)

Lemma append_String a n x : String a n +:+ x = String a (n +:+ x).
Proof. reflexivity. Qed.

Lemma append_empty_l x : EmptyString +:+ x = x.
Proof. reflexivity. Qed.

Lemma prefix_append n x : String.prefix n (n +:+ x) = true.
Proof.
  induction n as [|a n IH]; [by destruct x|].
  rewrite append_String. simpl. by destruct (ascii_dec a a).
Qed.

Lemma split_space_word w rest :
  spaceless w → split_space (w +:+ String " " rest) = w :: split_space rest.
Proof.
  induction w as [|c w IH]; intros Hw.
  - rewrite append_empty_l. cbn [split_space]. by rewrite decide_True.
  - apply Forall_cons in Hw as [Hc Hw].
    rewrite append_String. cbn [split_space].
    rewrite decide_False by done. by rewrite (IH Hw).
Qed.

Lemma split_space_words a w rest :
  spaceless a → spaceless w →
  split_space (a +:+ (w +:+ String " " rest)) = (a +:+ w) :: split_space rest.
Proof.
  intros Ha Hw. induction a as [|c a IH].
  - rewrite !append_empty_l. by apply split_space_word.
  - apply Forall_cons in Ha as [Hc Ha].
    rewrite !append_String. cbn [split_space].
    rewrite decide_False by done. by rewrite (IH Ha).
Qed.

(** X20.  A channel message is taken for a command when it starts with
    the nick of the bot, and the command is what follows the first
    space: whatever stands between the nick and that space is dropped.
    So a message addressed to [chromebot2] makes a bot named
    [chromebot] act exactly as if it had been addressed itself. *)
Theorem text_after_the_nick_is_ignored
    (sender tgt w rest : string) (e : env) (self : Chromebot)
    (Hnick : spaceless (nick self))
    (Hw : spaceless w) :
  onMessage sender tgt (nick self +:+ (w +:+ String " " rest)) e self
  = onMessage sender tgt (nick self +:+ String " " rest) e self.
Proof.
  unfold onMessage.
  rewrite !prefix_append, split_space_words, split_space_word by done.
  reflexivity.
Qed.

Lemma text_after_the_nick_is_ignored_witness :
  onMessage "alice" "#crocoite"
    (nick bot0 +:+ ("2:" +:+ String " " "a http://example.org"))
    {| uuid := "job-1"; now := 0 |} bot0
  = onMessage "alice" "#crocoite" (nick bot0 +:+ String " " "a http://example.org")
      {| uuid := "job-1"; now := 0 |} bot0.
Proof.
  apply (text_after_the_nick_is_ignored "alice" "#crocoite" "2:" "a http://example.org"
           {| uuid := "job-1"; now := 0 |} bot0).
  - unfold spaceless. cbn. repeat constructor; discriminate.
  - unfold spaceless. cbn. repeat constructor; discriminate.
Defined.

(** ** From the command to the final report *)

(** X22.  A privileged archive command with a fresh id while a slot is
    free, and a worker that exits (with whatever code) without writing a
    line: the run loop takes the slot, spawns, reads the end of the
    stream, waits and gives the slot back.  Two messages have then been
    sent, both to the channel and user of the command: the queued reply
    and the final status line, which says pending with all counters 0;
    the job has its finish time and the exit code of its worker. *)
Theorem silent_worker_is_reported_pending
    (self : Chromebot) (u : User.t) (ctx : ReplyContext) (e : env)
    (url recursive : string) (concurrency code n1 n2 : Z)
    (Hpriv : NickMode.operator ∈ modes_of self u ∨ NickMode.voice ∈ modes_of self u)
    (Hfresh : jobs self !! uuid e = None)
    (Hfree : processLimit self ≠ 0%nat) :
  ∃ self',
    run (after (dispatch self u (NsArchive url recursive concurrency) ctx e))
        [Acquired (uuid e) n1; Spawned (uuid e); Readline (uuid e) None;
         Exited (uuid e) code; Waited (uuid e) n2] = Some self'
    ∧ sent self'
      = sent self
        ++ [{| msg_target := target ctx; msg_to := User.name (user ctx);
               msg_text := Queued url (uuid e) recursive concurrency |};
            {| msg_target := target ctx; msg_to := User.name (user ctx);
               msg_text := StatusLine url (uuid e) "pending" (PInt 0) (PInt 0) (PInt 0)
                             (PInt 0) (PInt 0) "0.0 B" |}]
    ∧ processLimit self' = processLimit self
    ∧ jobs self' !! uuid e
      = Some (Job.Build (uuid e) ∅ ∅ (now e) (Some n2) url (User.name u) Status.pending
                (Some (Process.Build (Some code) false))).
Proof.
  cbn [dispatch]. unfold handleArchive, voice.
  rewrite decide_False by (by apply privileged).
  unfold handleArchive_body. cbn [Job.id Job.init].
  rewrite decide_False by (rewrite Hfresh; by intros [? ?]).
  cbn [after]. set (id := uuid e).
  set (j0 := Job.Build id ∅ ∅ (now e) None url (User.name u) Status.pending None).
  set (t0 := {| at_pc := AtGate; reply := ctx |}).
  set (s0 := with_tasks _ _).
  assert (Ht0 : tasks s0 !! id = Some t0) by (cbn; apply lookup_insert_eq).
  assert (Hj0 : jobs s0 !! id = Some j0) by (cbn; apply lookup_insert_eq).
  set (s1 := set_pc id Spawning (with_processLimit (pred (processLimit s0)) s0)).
  assert (H1 : step s0 (Acquired id n1) = Some s1).
  { cbn [step]. rewrite Ht0, Hj0. rewrite decide_True by done.
    by rewrite decide_True. }
  assert (Ht1 : tasks s1 !! id = Some (suspended Spawning t0)).
  { by apply lookup_set_pc_eq. }
  assert (Hj1 : jobs s1 !! id = Some j0) by exact Hj0.
  set (j2 := Job.set_process (Some Process.spawn) j0).
  set (s2 := set_pc id Reading (set_job id j2 s1)).
  assert (H2 : step s1 (Spawned id) = Some s2).
  { cbn [step]. rewrite Ht1, Hj1. by rewrite decide_True. }
  assert (Ht2 : tasks s2 !! id = Some (suspended Reading (suspended Spawning t0))).
  { by apply lookup_set_pc_eq. }
  assert (Hj2 : jobs s2 !! id = Some j2) by (cbn; apply lookup_insert_eq).
  set (s3 := set_pc id Waiting s2).
  assert (H3 : step s2 (Readline id None) = Some s3).
  { cbn [step]. rewrite Ht2, Hj2. by rewrite decide_True. }
  assert (Ht3 : tasks s3 !! id
                = Some (suspended Waiting (suspended Reading (suspended Spawning t0)))).
  { by apply lookup_set_pc_eq. }
  assert (Hj3 : jobs s3 !! id = Some j2) by exact Hj2.
  set (j4 := Job.set_process (Process.exit code <$> Job.process j2) j2).
  set (s4 := set_job id j4 s3).
  assert (H4 : step s3 (Exited id code) = Some s4).
  { cbn [step]. by rewrite Hj3. }
  assert (Ht4 : tasks s4 !! id
                = Some (suspended Waiting (suspended Reading (suspended Spawning t0))))
    by exact Ht3.
  assert (Hj4 : jobs s4 !! id = Some j4) by (cbn; apply lookup_insert_eq).
  set (t4 := suspended Waiting (suspended Reading (suspended Spawning t0))) in *.
  assert (H5 : step s4 (Waited id n2) = Some (finish id n2 j4 t4 (release s4))).
  { cbn [step]. by rewrite Ht4, Hj4. }
  exists (finish id n2 j4 t4 (release s4)).
  split; [cbn [run]; by rewrite H1, H2, H3, H4, H5|].
  assert (Hf : formatStatus (finish_job n2 j4)
               = Ok (StatusLine url id "pending" (PInt 0) (PInt 0) (PInt 0) (PInt 0)
                       (PInt 0) "0.0 B")) by reflexivity.
  unfold finish. rewrite Hf.
  split; [|split].
  - cbn. by rewrite <- app_assoc.
  - cbn. by destruct (processLimit self).
  - cbn. by rewrite lookup_insert_eq.
Qed.

Lemma silent_worker_is_reported_pending_witness :
  ∃ self',
    run (after (dispatch (after_run [names]) alice
                  (NsArchive "http://example.org" "prefix" 2) to_alice env0))
        [Acquired (uuid env0) 4; Spawned (uuid env0); Readline (uuid env0) None;
         Exited (uuid env0) 1; Waited (uuid env0) 5] = Some self'
    ∧ sent self'
      = sent (after_run [names])
        ++ [{| msg_target := target to_alice; msg_to := User.name (user to_alice);
               msg_text := Queued "http://example.org" (uuid env0) "prefix" 2 |};
            {| msg_target := target to_alice; msg_to := User.name (user to_alice);
               msg_text := StatusLine "http://example.org" (uuid env0) "pending" (PInt 0)
                             (PInt 0) (PInt 0) (PInt 0) (PInt 0) "0.0 B" |}]
    ∧ processLimit self' = processLimit (after_run [names])
    ∧ jobs self' !! uuid env0
      = Some (Job.Build (uuid env0) ∅ ∅ (now env0) (Some 5) "http://example.org"
                (User.name alice) Status.pending (Some (Process.Build (Some 1) false))).
Proof.
  apply (silent_worker_is_reported_pending (after_run [names]) alice to_alice env0
           "http://example.org" "prefix" 2 1 4 5).
  - right. refine (bool_decide_unpack _ _). vm_compute. exact I.
  - vm_compute. reflexivity.
  - vm_compute. discriminate.
Defined.
